(** * ECHONET Lite frame codec ([EchonetData]) -- shallow embedding and properties

    The embedded program is the class [EchonetData] together with the
    interface [EchonetProperty].  JavaScript [number]s that hold protocol
    fields are integers and are modelled in [Z]; [bigint] is [Z]; a Node
    [Buffer] is a list of bytes; strings are lists of characters.  Calls that
    can throw return a [Result]. *)

From Stdlib Require Import String ZArith List Bool Lia Ascii QArith.
From Stdlib Require Import Strings.Byte.
Import ListNotations.

#[local] Open Scope Z_scope.

(** ** Exceptions and the result monad *)

Inductive Error : Type :=
| TypeError_EdtMustBePositiveInteger   (* create, number branch *)
| RangeError_EdtMustBePositive         (* create, bigint branch *)
| Error_InvalidHeader                  (* parse *)
| Error_FrameTooShort                  (* parse *)
| Error_EpcOrPdcMissing                (* parse *)
| Error_EdtIncomplete                  (* parse *)
| Error_PropertyNotFound               (* getEdt, getEdtAsBigInt *)
| Error_CannotConvertToNumber          (* getEdt *)
| ERR_OUT_OF_RANGE                     (* Buffer read / write outside its range *)
| SyntaxError_BigInt                   (* BigInt(string) on a malformed literal *)
| RangeError_BigIntNotInteger.         (* BigInt(number) on a non-integer *)

Definition Result (A : Type) : Type := (Error + A)%type.

Definition ret {A : Type} (a : A) : Result A := inr a.
Definition throw {A : Type} (e : Error) : Result A := inl e.
Definition bind {A B : Type} (m : Result A) (k : A -> Result B) : Result B :=
  match m with
  | inl e => inl e
  | inr a => k a
  end.

Notation "x <- m ;; k" := (bind m (fun x => k))
  (at level 61, m at next level, right associativity).

(** [Array.prototype.map] with a callback that may throw: the first exception
    (in index order) aborts the whole map. *)
Fixpoint mapM {A B : Type} (f : A -> Result B) (l : list A) : Result (list B) :=
  match l with
  | [] => ret []
  | a :: l' => b <- f a ;; bs <- mapM f l' ;; ret (b :: bs)
  end.

(** ** The JavaScript runtime pieces the class relies on *)

Module Js.

(** A [number]: the three non-finite doubles, or a finite value.  Finite
    values are kept as rationals, which include every finite double. *)
Inductive Number : Type :=
| NaN
| PosInfinity
| NegInfinity
| Finite (q : Q).

(** [Number.isInteger(x)] *)
Definition Number_isInteger (x : Number) : bool :=
  match x with
  | Finite q => Qnum q mod Z.pos (Qden q) =? 0
  | _ => false
  end.

(** [x < 0] on numbers ([NaN < 0] is false, [-0 < 0] is false). *)
Definition Number_ltb_zero (x : Number) : bool :=
  match x with
  | Finite q => Qnum q <? 0
  | NegInfinity => true
  | _ => false
  end.

(** [BigInt(x)] for a number [x]: throws unless [x] is an integer. *)
Definition BigInt_of_Number (x : Number) : Result Z :=
  if Number_isInteger x then
    match x with
    | Finite q => ret (Qnum q / Z.pos (Qden q))
    | _ => throw RangeError_BigIntNotInteger
    end
  else throw RangeError_BigIntNotInteger.

(** Rounding of a non-negative integer to 53 significant bits, ties to
    even: what every double operation applies to its exact result. *)
Definition roundSig53 (n : Z) : Z :=
  let s := Z.log2 n - 52 in
  if s <=? 0 then n
  else
    let q := n / 2 ^ s in
    let r := n mod 2 ^ s in
    let h := 2 ^ (s - 1) in
    (if (h <? r) || ((r =? h) && Z.odd q) then q + 1 else q) * 2 ^ s.

(** [Number(z)] for a bigint [z]. *)
Definition Number_of_BigInt (z : Z) : Number :=
  let m := roundSig53 (Z.abs z) in
  if 2 ^ 1024 <=? m then (if z <? 0 then NegInfinity else PosInfinity)
  else Finite (inject_Z (Z.sgn z * m)).

(** A double of the interval [0, 1), as [Math.random()] returns them:
    [mant * 2 ^ (- expo)] with a 53-bit mantissa. *)
Record UnitDouble : Type := mkUnitDouble { mant : Z; expo : Z }.

Definition UnitDouble_ok (r : UnitDouble) : Prop :=
  0 <= mant r < 2 ^ 53 /\ 0 <= expo r <= 1074 /\ mant r < 2 ^ expo r.

(** [Math.floor(r * k)] for [r] in [0, 1) and a small positive integer
    [k]: the double product is the exact product rounded to 53 bits. *)
Definition Math_floor_mul (r : UnitDouble) (k : Z) : Z :=
  roundSig53 (mant r * k) / 2 ^ expo r.

(** [Math.ceil(n / 2)] for an integer [n] (a string length). *)
Definition Math_ceil_half (n : Z) : Z := - ((- n) / 2).

(** *** Characters and hexadecimal text *)

Definition hexChar (d : Z) : ascii :=
  match d with
  | 0 => "0" | 1 => "1" | 2 => "2" | 3 => "3"
  | 4 => "4" | 5 => "5" | 6 => "6" | 7 => "7"
  | 8 => "8" | 9 => "9" | 10 => "a" | 11 => "b"
  | 12 => "c" | 13 => "d" | 14 => "e" | _ => "f"
  end%char.

(** Value of a hexadecimal digit, either case; [None] for another
    character. *)
Definition unhex (c : ascii) : option Z :=
  let n := Z.of_N (N_of_ascii c) in
  if (48 <=? n) && (n <=? 57) then Some (n - 48)
  else if (97 <=? n) && (n <=? 102) then Some (n - 87)
  else if (65 <=? n) && (n <=? 70) then Some (n - 55)
  else None.

Fixpoint toHexDigits (fuel : nat) (n : Z) (acc : list ascii) : list ascii :=
  match fuel with
  | O => hexChar n :: acc
  | S fuel' =>
      if n <? 16 then hexChar n :: acc
      else toHexDigits fuel' (n / 16) (hexChar (n mod 16) :: acc)
  end.

(** [z.toString(16)] for a bigint [z]. *)
Definition BigInt_toString16 (z : Z) : list ascii :=
  if z <? 0
  then "-"%char :: toHexDigits (Z.to_nat (Z.log2 (- z))) (- z) []
  else toHexDigits (Z.to_nat (Z.log2 z)) z [].

(** [s.padStart(len, c)] for a one-character pad. *)
Definition padStart (s : list ascii) (len : Z) (c : ascii) : list ascii :=
  repeat c (Z.to_nat (len - Z.of_nat (length s))) ++ s.

(** [BigInt("0x" + ds)]: the digits must be hexadecimal and there must be
    at least one. *)
Fixpoint hexValue (ds : list ascii) (acc : Z) : option Z :=
  match ds with
  | [] => Some acc
  | c :: ds' =>
      match unhex c with
      | Some d => hexValue ds' (16 * acc + d)
      | None => None
      end
  end.

Definition BigInt_of_hex_literal (ds : list ascii) : Result Z :=
  match ds with
  | [] => throw SyntaxError_BigInt
  | _ => match hexValue ds 0 with
         | Some z => ret z
         | None => throw SyntaxError_BigInt
         end
  end.

(** *** Buffers *)

Definition Buffer : Type := list byte.

Definition Z_of_byte (b : byte) : Z := Z.of_N (Byte.to_N b).

(** Storing a number in a byte cell keeps it modulo 256. *)
Definition byte_of_Z (z : Z) : byte :=
  match Byte.of_N (Z.to_N (z mod 256)) with
  | Some b => b
  | None => x00
  end.

Definition Buffer_length (b : Buffer) : Z := Z.of_nat (length b).

(** [Buffer.alloc(n)]: [n] zero bytes (the engine's upper limit on the
    size of a buffer is left out). *)
Definition Buffer_alloc (n : Z) : Buffer := repeat x00 (Z.to_nat n).

(** [Buffer.from([x, ...])] *)
Definition Buffer_from_array (xs : list Z) : Buffer := map byte_of_Z xs.

(** [Buffer.from(s, "hex")]: two characters per byte; decoding stops at
    the first pair that is not hexadecimal, and a last unpaired character
    is dropped. *)
Fixpoint Buffer_from_hex (s : list ascii) : Buffer :=
  match s with
  | a :: b :: rest =>
      match unhex a, unhex b with
      | Some x, Some y => byte_of_Z (16 * x + y) :: Buffer_from_hex rest
      | _, _ => []
      end
  | _ => []
  end.

(** [src.copy(target)]: the target after the copy, which writes as many
    leading bytes of [src] as fit. *)
Definition Buffer_copy (src target : Buffer) : Buffer :=
  firstn (length target) src ++ skipn (length src) target.

Definition Buffer_concat (bs : list Buffer) : Buffer := concat bs.

(** [b.subarray(from, to)] for [0 <= from <= to <= b.length]. *)
Definition Buffer_subarray (b : Buffer) (from to : Z) : Buffer :=
  firstn (Z.to_nat (to - from)) (skipn (Z.to_nat from) b).

(** [b.toString("hex")] *)
Definition Buffer_toString_hex (b : Buffer) : list ascii :=
  flat_map (fun x => [hexChar (Z_of_byte x / 16); hexChar (Z_of_byte x mod 16)]) b.

(** Big-endian value of a run of bytes. *)
Definition valueBE (bs : list byte) : Z :=
  fold_left (fun acc x => 256 * acc + Z_of_byte x) bs 0.

(** [b.readUIntBE(offset, n)]; [readUInt8] and [readUInt16BE] are the
    cases [n = 1] and [n = 2].  Reading past the end throws. *)
Definition Buffer_readUIntBE (b : Buffer) (offset n : Z) : Result Z :=
  if (offset <? 0) || (Buffer_length b <? offset + n) then throw ERR_OUT_OF_RANGE
  else ret (valueBE (Buffer_subarray b offset (offset + n))).

Definition Buffer_readUInt8 (b : Buffer) (offset : Z) : Result Z :=
  Buffer_readUIntBE b offset 1.

Definition Buffer_readUInt16BE (b : Buffer) (offset : Z) : Result Z :=
  Buffer_readUIntBE b offset 2.

(** The [n] big-endian bytes of [v]. *)
Fixpoint bytesBE (n : nat) (v : Z) : list byte :=
  match n with
  | O => []
  | S n' => bytesBE n' (v / 256) ++ [byte_of_Z v]
  end.

(** [Buffer.alloc(n)] followed by [writeUIntBE(v, 0, n)] (or
    [writeUInt16BE(v, 0)] for [n = 2]): throws when [v] is outside
    [0, 256^n - 1]. *)
Definition Buffer_writeUIntBE (v : Z) (n : Z) : Result Buffer :=
  if (v <? 0) || (256 ^ n <=? v) then throw ERR_OUT_OF_RANGE
  else ret (bytesBE (Z.to_nat n) v).

End Js.

Import Js.

(** ** The codec: [EchonetProperty] and [EchonetData] *)

Record EchonetProperty : Type := mkProperty {
  epc : Z;   (* property code *)
  pdc : Z;   (* data length *)
  edt : Z    (* property data, a bigint *)
}.

Record EchonetData : Type := mkEchonetData {
  tid : Z;                            (* transaction id *)
  seoj : Z;                           (* source object *)
  deoj : Z;                           (* destination object *)
  esv : Z;                            (* service code *)
  properties : list EchonetProperty   (* property list *)
}.

(** The argument of [create]: [edt] is a number, a bigint, or left out. *)
Inductive EdtInput : Type :=
| EdtNumber (x : Number)
| EdtBigInt (z : Z)
| EdtUndefined.

Record PropertyInput : Type := mkPropertyInput {
  in_epc : Z;
  in_edt : EdtInput
}.

Record CreateArgs : Type := mkCreateArgs {
  arg_tid : option Z;
  arg_seoj : Z;
  arg_deoj : Z;
  arg_esv : Z;
  arg_properties : list PropertyInput
}.

(** [Math.floor(Math.random() * 0xffff)], given the outcome [rnd] of
    [Math.random()]. *)
Definition randomTid (rnd : UnitDouble) : Z := Math_floor_mul rnd 0xffff.

(** The callback of [properties.map] in [create]. *)
Definition createProperty (i : PropertyInput) : Result EchonetProperty :=
  edtBigInt <-
    match in_edt i with
    | EdtNumber x =>
        if negb (Number_isInteger x) || Number_ltb_zero x
        then throw TypeError_EdtMustBePositiveInteger
        else BigInt_of_Number x
    | EdtBigInt z =>
        if z <? 0 then throw RangeError_EdtMustBePositive else ret z
    | EdtUndefined => ret 0
    end ;;
  let calculatedPdc :=
    Math_ceil_half (Z.of_nat (length (BigInt_toString16 edtBigInt))) in
  ret {| epc := in_epc i; pdc := calculatedPdc; edt := edtBigInt |}.

(** [EchonetData.create]; [rnd] is what [Math.random()] returns during the
    call. *)
Definition create (rnd : UnitDouble) (args : CreateArgs) : Result EchonetData :=
  let randomTid := randomTid rnd in
  props <- mapM createProperty (arg_properties args) ;;
  ret {| tid := match arg_tid args with Some t => t | None => randomTid end;
         seoj := arg_seoj args;
         deoj := arg_deoj args;
         esv := arg_esv args;
         properties := props |}.

(** The [for] loop of [parse]: [n] iterations are left, [offset] is the read
    position and [props] the properties pushed so far. *)
Fixpoint parseProperties (frame : Buffer) (n : nat) (offset : Z)
    (props : list EchonetProperty) : Result (list EchonetProperty) :=
  match n with
  | O => ret props
  | S n' =>
      if Buffer_length frame <? offset + 2 then throw Error_EpcOrPdcMissing
      else
        epc <- Buffer_readUInt8 frame offset ;;
        let offset := offset + 1 in
        pdc <- Buffer_readUInt8 frame offset ;;
        let offset := offset + 1 in
        if Buffer_length frame <? offset + pdc then throw Error_EdtIncomplete
        else
          edt <-
            (if 0 <? pdc
             then BigInt_of_hex_literal
                    (Buffer_toString_hex (Buffer_subarray frame offset (offset + pdc)))
             else ret 0) ;;
          let offset := offset + pdc in
          parseProperties frame n' offset
            (props ++ [ {| epc := epc; pdc := pdc; edt := edt |} ])
  end.

(** [EchonetData.parse] *)
Definition parse (frame : Buffer) : Result EchonetData :=
  header <- Buffer_readUInt16BE frame 0 ;;
  if negb (header =? 0x1081) then throw Error_InvalidHeader
  else if Buffer_length frame <? 12 then throw Error_FrameTooShort
  else
    tid <- Buffer_readUInt16BE frame 2 ;;
    seoj <- Buffer_readUIntBE frame 4 3 ;;
    deoj <- Buffer_readUIntBE frame 7 3 ;;
    esv <- Buffer_readUInt8 frame 10 ;;
    opc <- Buffer_readUInt8 frame 11 ;;
    properties <- parseProperties frame (Z.to_nat opc) 12 [] ;;
    ret {| tid := tid; seoj := seoj; deoj := deoj; esv := esv;
           properties := properties |}.

(** [this.properties.find((property) => property.epc === epc)] *)
Definition findProperty (this : EchonetData) (code : Z) : option EchonetProperty :=
  find (fun property => epc property =? code) (properties this).

(** [getEdt] *)
Definition getEdt (this : EchonetData) (code : Z) : Result Number :=
  match findProperty this code with
  | None => throw Error_PropertyNotFound
  | Some property =>
      if 6 <? pdc property then throw Error_CannotConvertToNumber
      else ret (Number_of_BigInt (edt property))
  end.

(** [getEdtAsBigInt] *)
Definition getEdtAsBigInt (this : EchonetData) (code : Z) : Result Z :=
  match findProperty this code with
  | None => throw Error_PropertyNotFound
  | Some property => ret (edt property)
  end.

(** [isValidResponse] *)
Definition isValidResponse (this response : EchonetData) : bool :=
  (deoj this =? seoj response) &&
  (seoj this =? deoj response) &&
  (tid this =? tid response).

(** The bytes of the value field that [toBuffer] emits for one property. *)
Definition edtBuffer (p : EchonetProperty) : Buffer :=
  let edtBuffer := if 0 <? pdc p then Buffer_alloc (pdc p) else Buffer_alloc 0 in
  if 0 <? pdc p then
    let edtHex := padStart (BigInt_toString16 (edt p)) (pdc p * 2) "0" in
    Buffer_copy (Buffer_from_hex edtHex) edtBuffer
  else edtBuffer.

(** The callback of [this.properties.map] in [toBuffer]. *)
Definition propertyToBuffer (p : EchonetProperty) : Buffer :=
  Buffer_concat
    [ Buffer_from_array [epc p]; Buffer_from_array [pdc p]; edtBuffer p ].

(** [toBuffer] *)
Definition toBuffer (this : EchonetData) : Result Buffer :=
  tidBuffer <- Buffer_writeUIntBE (tid this) 2 ;;
  seojBuffer <- Buffer_writeUIntBE (seoj this) 3 ;;
  deojBuffer <- Buffer_writeUIntBE (deoj this) 3 ;;
  let opc := Buffer_from_array [Z.of_nat (length (properties this))] in
  let propertyData := Buffer_concat (map propertyToBuffer (properties this)) in
  ret (Buffer_concat
         [ Buffer_from_array [0x10; 0x81];
           tidBuffer;
           seojBuffer;
           deojBuffer;
           Buffer_from_array [esv this];
           opc;
           propertyData ]).

(** Structural conditions used in the statements below. *)

(** Every property value fits in its declared length. *)
Definition valueFits (p : EchonetProperty) : Prop :=
  0 <= edt p < 256 ^ pdc p.

(** The fields of a frame fit their widths on the wire. *)
Definition fieldsFit (f : EchonetData) : Prop :=
  0 <= tid f < 2 ^ 16 /\
  0 <= seoj f < 2 ^ 24 /\
  0 <= deoj f < 2 ^ 24 /\
  0 <= esv f < 2 ^ 8 /\
  Forall (fun p => 0 <= epc p < 2 ^ 8) (properties f) /\
  (length (properties f) <= 255)%nat.

Definition exampleBytes : Buffer :=
  [x10; x81; x00; x01; x05; xff; x01; x02; x88; x01; x62; x01; xe7; x00].

Definition exampleFrame : EchonetData :=
  {| tid := 0x0001; seoj := 0x05FF01; deoj := 0x028801; esv := 0x62;
     properties := [ {| epc := 0xE7; pdc := 0; edt := 0 |} ] |}.

(** The [k] low hexadecimal digits of [n], most significant first: the
    digit string that [toString(16)] and [padStart] are compared with. *)
Fixpoint hexFixed (k : nat) (n : Z) : list ascii :=
  match k with
  | O => []
  | S k' => hexFixed k' (n / 16) ++ [hexChar (n mod 16)]
  end.

(** Number of characters of [z.toString(16)]. *)
Definition hexLength (z : Z) : Z := Z.of_nat (length (BigInt_toString16 z)).

(** A property as it can stand on the wire: code and length are bytes and
    the value fits the length. *)
Definition wireProperty (p : EchonetProperty) : Prop :=
  0 <= epc p < 256 /\ 0 <= pdc p < 256 /\ valueFits p.

(** [p] is the first property of [ps], in stored order, whose code is
    [code]. *)
Definition firstWithCode (ps : list EchonetProperty) (code : Z)
    (p : EchonetProperty) : Prop :=
  exists before after : list EchonetProperty,
    ps = before ++ p :: after /\ epc p = code /\
    Forall (fun q => epc q <> code) before.

(** The candidate with one compared field replaced. *)
Definition withSeoj (f : EchonetData) (v : Z) : EchonetData :=
  {| tid := tid f; seoj := v; deoj := deoj f; esv := esv f;
     properties := properties f |}.

Definition withDeoj (f : EchonetData) (v : Z) : EchonetData :=
  {| tid := tid f; seoj := seoj f; deoj := v; esv := esv f;
     properties := properties f |}.

Definition withTid (f : EchonetData) (v : Z) : EchonetData :=
  {| tid := v; seoj := seoj f; deoj := deoj f; esv := esv f;
     properties := properties f |}.

Definition withPayload (f : EchonetData) (e : Z) (ps : list EchonetProperty)
    : EchonetData :=
  {| tid := tid f; seoj := seoj f; deoj := deoj f; esv := e; properties := ps |}.

(** A frame obtained through the public interface. *)
Inductive obtainable : EchonetData -> Prop :=
| obtained_by_create (rnd : UnitDouble) (args : CreateArgs) (f : EchonetData) :
    create rnd args = ret f -> obtainable f
| obtained_by_parse (frame : Buffer) (f : EchonetData) :
    parse frame = ret f -> obtainable f.

(** The words of the validation rule: a number is rejected when it is
    negative or not an integer, a bigint when it is negative. *)
Definition Number_isNegative (x : Number) : Prop :=
  match x with
  | Finite q => (q < 0)%Q
  | NegInfinity => True
  | _ => False
  end.

Definition Number_isIntegral (x : Number) : Prop :=
  match x with
  | Finite q => exists z : Z, (q == inject_Z z)%Q
  | _ => False
  end.

Definition rejectedEdt (e : EdtInput) : Prop :=
  match e with
  | EdtNumber x => Number_isNegative x \/ ~ Number_isIntegral x
  | EdtBigInt z => z < 0
  | EdtUndefined => False
  end.

(** The integer [v] is the value the caller supplied ([0] when left out). *)
Definition suppliedValue (e : EdtInput) (v : Z) : Prop :=
  match e with
  | EdtNumber (Finite q) => (q == inject_Z v)%Q
  | EdtNumber _ => False
  | EdtBigInt z => z = v
  | EdtUndefined => v = 0
  end.

(** The length of [p] is the least positive number of bytes that holds its
    value. *)
Definition lengthIsMinimal (p : EchonetProperty) : Prop :=
  1 <= pdc p /\ edt p < 256 ^ pdc p /\
  forall n : Z, 1 <= n -> edt p < 256 ^ n -> pdc p <= n.

(** [h] is the number of hexadecimal digits of the non-negative [v]. *)
Definition isHexDigitCount (v h : Z) : Prop :=
  1 <= h /\ v < 16 ^ h /\ (h = 1 \/ 16 ^ (h - 1) <= v).

Definition isValidationError (e : Error) : Prop :=
  e = TypeError_EdtMustBePositiveInteger \/ e = RangeError_EdtMustBePositive.

(** Concrete inputs used below. *)

(** A frame built from the single value [256 ^ 255], which needs 256 bytes. *)
Definition longValueArgs : CreateArgs :=
  {| arg_tid := Some 0x0001; arg_seoj := 0x05FF01; arg_deoj := 0x028801;
     arg_esv := 0x62;
     arg_properties := [ {| in_epc := 0x80; in_edt := EdtBigInt (256 ^ 255) |} ] |}.

Definition longValueFrame : EchonetData :=
  {| tid := 0x0001; seoj := 0x05FF01; deoj := 0x028801; esv := 0x62;
     properties := [ {| epc := 0x80; pdc := 256; edt := 256 ^ 255 |} ] |}.

(** What parsing the serialization of [longValueFrame] returns. *)
Definition longValueReadBack : EchonetData :=
  {| tid := 0x0001; seoj := 0x05FF01; deoj := 0x028801; esv := 0x62;
     properties := [ {| epc := 0x80; pdc := 0; edt := 0 |} ] |}.

(** The worked example followed by one more byte. *)
Definition trailingBytes : Buffer := exampleBytes ++ [xff].

(** A frame whose property value does not fit its length. *)
Definition oversizedProperty : EchonetProperty :=
  {| epc := 0x80; pdc := 1; edt := 0x1234 |}.

Definition oversizedFrame : EchonetData :=
  {| tid := 0x0001; seoj := 0x05FF01; deoj := 0x028801; esv := 0x62;
     properties := [ oversizedProperty ] |}.

(** ** The diagnostic rendering, [toString] *)



Fixpoint toDecDigits (fuel : nat) (n : Z) (acc : list ascii) : list ascii :=
  match fuel with
  | O => hexChar n :: acc
  | S fuel' =>
      if n <? 10 then hexChar n :: acc
      else toDecDigits fuel' (n / 10) (hexChar (n mod 10) :: acc)
  end.

(** The text of a number that holds an integer, as a template literal
    inserts it: its decimal digits.  (From 10^21 on JavaScript prints an
    exponent instead; the lengths rendered here are far below.) *)
Definition Number_toString10 (n : Z) : list ascii :=
  if n <? 0
  then "-"%char :: toDecDigits (Z.to_nat (Z.log2 (- n))) (- n) []
  else toDecDigits (Z.to_nat (Z.log2 n)) n [].




(** The [k] low decimal digits of [n], most significant first. *)
Fixpoint decFixed (k : nat) (n : Z) : list ascii :=
  match k with
  | O => []
  | S k' => decFixed k' (n / 10) ++ [hexChar (n mod 10)]
  end.

(** The property with its value replaced. *)
Definition withEdt (p : EchonetProperty) (v : Z) : EchonetProperty :=
  {| epc := epc p; pdc := pdc p; edt := v |}.

(** Further shorthands for the statements about the rest of the class. *)

(** The frame with its property list replaced. *)
Definition withProperties (f : EchonetData) (ps : list EchonetProperty)
    : EchonetData :=
  {| tid := tid f; seoj := seoj f; deoj := deoj f; esv := esv f;
     properties := ps |}.

(** The three fields that [toBuffer] writes with a range-checked write. *)
Definition headerFits (f : EchonetData) : Prop :=
  0 <= tid f < 2 ^ 16 /\ 0 <= seoj f < 2 ^ 24 /\ 0 <= deoj f < 2 ^ 24.

(** Bytes a frame occupies: twelve, then two and the value bytes for each
    property. *)
Definition frameLength (f : EchonetData) : Z :=
  12 + fold_right (fun p acc => 2 + Z.max 0 (pdc p) + acc) 0 (properties f).

(** An error that [parse] raises on malformed input. *)
Definition isFormatError (e : Error) : Prop :=
  e = ERR_OUT_OF_RANGE \/ e = Error_InvalidHeader \/ e = Error_FrameTooShort \/
  e = Error_EpcOrPdcMissing \/ e = Error_EdtIncomplete.

(** What [create] throws for a rejected value: the number branch throws the
    [TypeError], the bigint branch the [RangeError]. *)
Definition rejectionOf (e : EdtInput) : Error :=
  match e with
  | EdtNumber _ => TypeError_EdtMustBePositiveInteger
  | _ => RangeError_EdtMustBePositive
  end.

(** A frame of 256 empty properties, one more than the count byte holds. *)
Definition manyPropertiesFrame : EchonetData :=
  {| tid := 0x0001; seoj := 0x05FF01; deoj := 0x028801; esv := 0x62;
     properties := repeat {| epc := 0x80; pdc := 0; edt := 0 |} 256 |}.

(** * Properties *)

(** Settle a comparison guard whose outcome follows by arithmetic from the
    context: [guard_false] when the test fails, [guard_true] when it holds. *)
Ltac guard_false t :=
  let E := fresh "E" in
  destruct t eqn:E;
  [ first [apply Z.ltb_lt in E | apply Z.leb_le in E | apply Z.eqb_eq in E]; lia | ].

Ltac guard_true t :=
  let E := fresh "E" in
  destruct t eqn:E;
  [ | first [apply Z.ltb_ge in E | apply Z.leb_gt in E | apply Z.eqb_neq in E]; lia ].

(** ** Bytes *)

Section Bytes.

Lemma Z_of_byte_range (b : byte) : 0 <= Z_of_byte b < 256.
Proof.
  unfold Z_of_byte. pose proof (Byte.to_N_bounded b). lia.
Qed.

Lemma Z_of_byte_of_Z (z : Z) : Z_of_byte (byte_of_Z z) = z mod 256.
Proof.
  unfold Z_of_byte, byte_of_Z.
  assert (Hm : 0 <= z mod 256 < 256) by (apply Z.mod_pos_bound; lia).
  destruct (Byte.of_N (Z.to_N (z mod 256))) as [b|] eqn:E.
  - apply Byte.to_of_N in E. rewrite E. lia.
  - apply Byte.of_N_None_iff in E. lia.
Qed.

Lemma byte_of_Z_of_byte (b : byte) : byte_of_Z (Z_of_byte b) = b.
Proof.
  pose proof (Z_of_byte_range b) as Hb.
  unfold byte_of_Z. rewrite Z.mod_small by lia.
  unfold Z_of_byte. rewrite N2Z.id, Byte.of_to_N. reflexivity.
Qed.

Lemma Z_of_byte_inj (a b : byte) : Z_of_byte a = Z_of_byte b -> a = b.
Proof.
  intros H. rewrite <- (byte_of_Z_of_byte a), <- (byte_of_Z_of_byte b).
  now rewrite H.
Qed.

Lemma byte_of_Z_small (z : Z) (b : byte) :
  0 <= z < 256 -> byte_of_Z z = b <-> z = Z_of_byte b.
Proof.
  intros Hz. split; intros H.
  - rewrite <- H, Z_of_byte_of_Z, Z.mod_small; lia.
  - subst z. apply byte_of_Z_of_byte.
Qed.

Lemma byte_of_Z_eq_mod (x y : Z) :
  x mod 256 = y mod 256 -> byte_of_Z x = byte_of_Z y.
Proof.
  intros H. unfold byte_of_Z. now rewrite H.
Qed.

End Bytes.

(** ** Hexadecimal digits *)

Section HexDigits.

Lemma hex_digit_cases (d : Z) :
  0 <= d < 16 ->
  d = 0 \/ d = 1 \/ d = 2 \/ d = 3 \/ d = 4 \/ d = 5 \/ d = 6 \/ d = 7 \/
  d = 8 \/ d = 9 \/ d = 10 \/ d = 11 \/ d = 12 \/ d = 13 \/ d = 14 \/ d = 15.
Proof. lia. Qed.

Lemma unhex_hexChar (d : Z) : 0 <= d < 16 -> unhex (hexChar d) = Some d.
Proof.
  intros H. apply hex_digit_cases in H.
  repeat (destruct H as [H|H]; [subst d; reflexivity|]).
  subst d; reflexivity.
Qed.

Lemma unhex_range (c : ascii) (d : Z) : unhex c = Some d -> 0 <= d < 16.
Proof.
  unfold unhex.
  repeat match goal with
         | |- context [if ?b then _ else _] => destruct b eqn:?
         end; intros H; inversion H; subst; lia.
Qed.

Lemma hexFixed_length (k : nat) (n : Z) : length (hexFixed k n) = k.
Proof.
  revert n. induction k as [|k IH]; intros n; simpl; [reflexivity|].
  rewrite length_app, IH. simpl. lia.
Qed.

Lemma toHexDigits_spec (fuel : nat) :
  forall (n : Z) (acc : list ascii),
    0 <= n < 16 ^ (Z.of_nat fuel + 1) ->
    exists k : nat,
      toHexDigits fuel n acc = hexFixed k n ++ acc /\
      (1 <= k)%nat /\ n < 16 ^ Z.of_nat k /\
      (k = 1%nat \/ 16 ^ (Z.of_nat k - 1) <= n).
Proof.
  induction fuel as [|fuel IH]; intros n acc Hn.
  - exists 1%nat. simpl in *. rewrite Z.mod_small by lia.
    repeat split; auto; lia.
  - simpl toHexDigits. destruct (n <? 16) eqn:E.
    + apply Z.ltb_lt in E. exists 1%nat. simpl. rewrite Z.mod_small by lia.
      repeat split; auto; lia.
    + apply Z.ltb_ge in E.
      assert (Hq : 0 <= n / 16 < 16 ^ (Z.of_nat fuel + 1)).
      { split; [apply Z.div_pos; lia|].
        apply Z.div_lt_upper_bound; [lia|].
        replace (Z.of_nat (S fuel) + 1) with (Z.succ (Z.of_nat fuel + 1)) in Hn by lia.
        rewrite Z.pow_succ_r in Hn by lia. lia. }
      destruct (IH (n / 16) (hexChar (n mod 16) :: acc) Hq)
        as (k & Heq & Hk1 & Hlt & Hge).
      exists (S k). rewrite Heq. cbn [hexFixed]. rewrite <- app_assoc. cbn [app].
      split; [reflexivity|]. split; [lia|].
      replace (Z.of_nat (S k)) with (Z.succ (Z.of_nat k)) by lia.
      rewrite Z.pow_succ_r by lia.
      pose proof (Z.div_mod n 16 ltac:(lia)) as Hdm.
      pose proof (Z.mod_pos_bound n 16 ltac:(lia)) as Hmb.
      split; [lia|]. right.
      replace (Z.succ (Z.of_nat k) - 1) with (Z.succ (Z.of_nat k - 1)) by lia.
      rewrite Z.pow_succ_r by lia.
      destruct Hge as [->|Hge].
      * simpl. lia.
      * lia.
Qed.

Lemma log2_fuel (n : Z) :
  0 <= n -> n < 16 ^ (Z.of_nat (Z.to_nat (Z.log2 n)) + 1).
Proof.
  intros Hn. pose proof (Z.log2_nonneg n) as Hl.
  rewrite Z2Nat.id by lia.
  destruct (Z.eq_dec n 0) as [->|Hnz]; [simpl; lia|].
  pose proof (Z.log2_spec n ltac:(lia)) as [_ Hlt].
  eapply Z.lt_le_trans; [exact Hlt|].
  replace (Z.succ (Z.log2 n)) with (Z.log2 n + 1) by lia.
  apply Z.pow_le_mono_l. lia.
Qed.

(** [toString(16)] of a non-negative bigint is its shortest digit string. *)
Lemma BigInt_toString16_spec (n : Z) :
  0 <= n ->
  exists k : nat,
    BigInt_toString16 n = hexFixed k n /\
    (1 <= k)%nat /\ n < 16 ^ Z.of_nat k /\
    (k = 1%nat \/ 16 ^ (Z.of_nat k - 1) <= n).
Proof.
  intros Hn. unfold BigInt_toString16.
  guard_false (n <? 0).
  destruct (toHexDigits_spec (Z.to_nat (Z.log2 n)) n [] (conj Hn (log2_fuel n Hn)))
    as (k & Heq & H).
  exists k. rewrite Heq, app_nil_r. auto.
Qed.

End HexDigits.

(** ** Digit strings, padding and hexadecimal decoding *)

Section HexStrings.

Lemma hexFixed_zero (i : nat) : hexFixed i 0 = repeat "0"%char i.
Proof.
  induction i as [|i IH]; [reflexivity|].
  cbn [hexFixed]. rewrite Z.div_0_l, IH by lia.
  change (hexChar (0 mod 16)) with "0"%char.
  now rewrite <- repeat_cons.
Qed.

Lemma hexFixed_pad (k : nat) :
  forall (i : nat) (n : Z),
    0 <= n < 16 ^ Z.of_nat k ->
    hexFixed (i + k) n = repeat "0"%char i ++ hexFixed k n.
Proof.
  induction k as [|k IH]; intros i n Hn.
  - simpl in Hn. assert (n = 0) by lia. subst n.
    rewrite Nat.add_0_r, app_nil_r. apply hexFixed_zero.
  - rewrite Nat.add_succ_r. cbn [hexFixed].
    rewrite IH, app_assoc; [reflexivity|].
    rewrite Nat2Z.inj_succ, Z.pow_succ_r in Hn by lia.
    split; [apply Z.div_pos; lia|apply Z.div_lt_upper_bound; lia].
Qed.

Lemma hexFixed_split (b : nat) :
  forall (a : nat) (n : Z),
    0 <= n ->
    hexFixed (a + b) n = hexFixed a (n / 16 ^ Z.of_nat b) ++ hexFixed b n.
Proof.
  induction b as [|b IH]; intros a n Hn.
  - rewrite Nat.add_0_r, app_nil_r. simpl. now rewrite Z.div_1_r.
  - rewrite Nat.add_succ_r. cbn [hexFixed].
    rewrite IH by (apply Z.div_pos; lia).
    rewrite Z.div_div by lia.
    rewrite Nat2Z.inj_succ, Z.pow_succ_r by lia.
    now rewrite app_assoc.
Qed.

Lemma bytesBE_length (k : nat) (n : Z) : length (bytesBE k n) = k.
Proof.
  revert n. induction k as [|k IH]; intros n; simpl; [reflexivity|].
  rewrite length_app, IH. simpl. lia.
Qed.

Lemma two_digits_byte (n : Z) :
  byte_of_Z (16 * (n / 16 mod 16) + n mod 16) = byte_of_Z n.
Proof.
  apply byte_of_Z_eq_mod.
  pose proof (Z.div_mod n 16 ltac:(lia)).
  pose proof (Z.div_mod (n / 16) 16 ltac:(lia)).
  pose proof (Z.mod_pos_bound n 16 ltac:(lia)).
  pose proof (Z.mod_pos_bound (n / 16) 16 ltac:(lia)).
  rewrite Z.mod_small by lia.
  apply (Z.mod_unique n 256 (n / 16 / 16)); lia.
Qed.

Lemma Buffer_from_hex_hexFixed (k : nat) :
  forall (n : Z) (rest : list ascii),
    Buffer_from_hex (hexFixed (2 * k) n ++ rest)
    = bytesBE k n ++ Buffer_from_hex rest.
Proof.
  induction k as [|k IH]; intros n rest; [reflexivity|].
  replace (2 * S k)%nat with (S (S (2 * k))) by lia.
  cbn [hexFixed bytesBE]. rewrite <- !app_assoc. cbn [app].
  rewrite Z.div_div by lia. change (16 * 16) with 256.
  rewrite IH. f_equal. cbn [Buffer_from_hex].
  rewrite !unhex_hexChar by (apply Z.mod_pos_bound; lia).
  now rewrite two_digits_byte.
Qed.

Lemma Buffer_copy_alloc (src : Buffer) (n : Z) :
  (Z.to_nat n <= length src)%nat ->
  Buffer_copy src (Buffer_alloc n) = firstn (Z.to_nat n) src.
Proof.
  intros H. unfold Buffer_copy, Buffer_alloc.
  rewrite repeat_length, skipn_all2, app_nil_r; [reflexivity|].
  now rewrite repeat_length.
Qed.

Lemma firstn_exact {A : Type} (l r : list A) (n : nat) :
  length l = n -> firstn n (l ++ r) = l.
Proof.
  intros <-. rewrite firstn_app, Nat.sub_diag, firstn_all. simpl.
  apply app_nil_r.
Qed.

Lemma skipn_exact {A : Type} (l r : list A) (n : nat) :
  length l = n -> skipn n (l ++ r) = r.
Proof.
  intros <-. rewrite skipn_app, Nat.sub_diag, skipn_all. reflexivity.
Qed.

(** The value bytes emitted for a property with a non-negative value and
    a positive length: the leading [2 * pdc] digits of the padded digit
    string, i.e. the value shifted right by the digits that do not fit. *)
Lemma edtBuffer_digits (p : EchonetProperty) :
  0 <= edt p -> 0 < pdc p ->
  edtBuffer p
  = bytesBE (Z.to_nat (pdc p))
      (edt p / 16 ^ Z.max 0 (hexLength (edt p) - 2 * pdc p)).
Proof.
  intros Hv Hp. unfold edtBuffer, hexLength.
  guard_true (0 <? pdc p).
  destruct (BigInt_toString16_spec (edt p) Hv) as (k & Heq & Hk1 & Hlt & Hge).
  rewrite Heq, hexFixed_length. unfold padStart. rewrite hexFixed_length.
  set (P := Z.to_nat (pdc p)).
  assert (HP : Z.of_nat P = pdc p) by (unfold P; lia).
  destruct (Z.le_gt_cases (Z.of_nat k) (2 * pdc p)) as [Hle|Hgt].
  - rewrite Z.max_l by lia. simpl (16 ^ 0). rewrite Z.div_1_r.
    rewrite <- hexFixed_pad by lia.
    replace (Z.to_nat (pdc p * 2 - Z.of_nat k) + k)%nat with (2 * P)%nat by lia.
    rewrite <- (app_nil_r (hexFixed (2 * P) (edt p))).
    rewrite Buffer_from_hex_hexFixed. simpl (Buffer_from_hex []).
    rewrite app_nil_r.
    rewrite Buffer_copy_alloc by (rewrite bytesBE_length; lia).
    fold P. rewrite <- (app_nil_r (bytesBE P (edt p))) at 1.
    apply firstn_exact, bytesBE_length.
  - rewrite Z.max_r by lia.
    replace (Z.to_nat (pdc p * 2 - Z.of_nat k)) with 0%nat by lia.
    cbn [repeat app].
    replace k with (2 * P + (k - 2 * P))%nat at 1 by lia.
    rewrite hexFixed_split by lia.
    rewrite Buffer_from_hex_hexFixed.
    rewrite Buffer_copy_alloc by (rewrite length_app, bytesBE_length; lia).
    fold P. rewrite firstn_exact by apply bytesBE_length.
    do 3 f_equal. lia.
Qed.

Lemma edtBuffer_empty (p : EchonetProperty) : pdc p <= 0 -> edtBuffer p = [].
Proof.
  intros Hp. unfold edtBuffer.
  guard_false (0 <? pdc p).
  reflexivity.
Qed.

End HexStrings.

(** ** Big-endian values *)

Section BigEndian.

Lemma fold_valueBE (bs : list byte) (acc : Z) :
  fold_left (fun a x => 256 * a + Z_of_byte x) bs acc
  = acc * 256 ^ Z.of_nat (length bs) + valueBE bs.
Proof.
  unfold valueBE. revert acc.
  induction bs as [|b bs IH]; intros acc.
  - simpl. lia.
  - cbn [fold_left length]. rewrite IH, (IH (256 * 0 + Z_of_byte b)).
    rewrite Nat2Z.inj_succ, Z.pow_succ_r by lia. lia.
Qed.

Lemma valueBE_cons (b : byte) (bs : list byte) :
  valueBE (b :: bs) = Z_of_byte b * 256 ^ Z.of_nat (length bs) + valueBE bs.
Proof.
  unfold valueBE at 1. cbn [fold_left]. rewrite fold_valueBE. lia.
Qed.

Lemma valueBE_snoc (bs : list byte) (b : byte) :
  valueBE (bs ++ [b]) = 256 * valueBE bs + Z_of_byte b.
Proof.
  unfold valueBE. rewrite fold_left_app. reflexivity.
Qed.

Lemma valueBE_range (bs : list byte) :
  0 <= valueBE bs < 256 ^ Z.of_nat (length bs).
Proof.
  induction bs as [|b bs IH] using rev_ind.
  - simpl. unfold valueBE. simpl. lia.
  - rewrite valueBE_snoc, length_app, Nat2Z.inj_add. simpl (Z.of_nat (length [b])).
    rewrite Z.pow_add_r by lia. pose proof (Z_of_byte_range b). lia.
Qed.

Lemma bytesBE_valueBE (bs : list byte) : bytesBE (length bs) (valueBE bs) = bs.
Proof.
  induction bs as [|b bs IH] using rev_ind; [reflexivity|].
  rewrite length_app, Nat.add_comm. cbn [length Nat.add bytesBE].
  rewrite valueBE_snoc. pose proof (Z_of_byte_range b) as Hb.
  replace ((256 * valueBE bs + Z_of_byte b) / 256) with (valueBE bs).
  - rewrite IH. f_equal. f_equal.
    rewrite <- (byte_of_Z_of_byte b) at 2. apply byte_of_Z_eq_mod.
    rewrite Z.add_comm, Z.mul_comm, Z.mod_add by lia. reflexivity.
  - symmetry. rewrite Z.add_comm, Z.mul_comm, Z.div_add by lia.
    rewrite Z.div_small by lia. reflexivity.
Qed.

Lemma valueBE_bytesBE (k : nat) :
  forall n : Z, 0 <= n < 256 ^ Z.of_nat k -> valueBE (bytesBE k n) = n.
Proof.
  induction k as [|k IH]; intros n Hn.
  - simpl in Hn. unfold valueBE. simpl. lia.
  - cbn [bytesBE]. rewrite valueBE_snoc, Z_of_byte_of_Z.
    rewrite Nat2Z.inj_succ, Z.pow_succ_r in Hn by lia.
    rewrite IH.
    + pose proof (Z.div_mod n 256 ltac:(lia)). lia.
    + split; [apply Z.div_pos; lia|apply Z.div_lt_upper_bound; lia].
Qed.

Lemma hexValue_toString_hex (bs : list byte) :
  forall acc : Z,
    hexValue (Buffer_toString_hex bs) acc
    = Some (fold_left (fun a x => 256 * a + Z_of_byte x) bs acc).
Proof.
  induction bs as [|b bs IH]; intros acc; [reflexivity|].
  pose proof (Z_of_byte_range b) as Hb.
  cbn [Buffer_toString_hex flat_map app hexValue fold_left].
  rewrite !unhex_hexChar.
  - fold (Buffer_toString_hex bs). rewrite IH. do 2 f_equal.
    pose proof (Z.div_mod (Z_of_byte b) 16 ltac:(lia)). lia.
  - apply Z.mod_pos_bound; lia.
  - split; [apply Z.div_pos; lia|apply Z.div_lt_upper_bound; lia].
Qed.

(** [BigInt("0x" + bytes.toString("hex"))] is the big-endian value of a
    non-empty run of bytes. *)
Lemma BigInt_of_hex_bytes (bs : list byte) :
  bs <> [] -> BigInt_of_hex_literal (Buffer_toString_hex bs) = ret (valueBE bs).
Proof.
  intros Hne. unfold BigInt_of_hex_literal.
  rewrite hexValue_toString_hex. fold (valueBE bs).
  destruct bs as [|b bs]; [contradiction|]. reflexivity.
Qed.

Lemma hexLength_fits (n P : Z) :
  0 < P -> 0 <= n < 256 ^ P -> hexLength n <= 2 * P.
Proof.
  intros HP [Hn Hlt]. unfold hexLength.
  destruct (BigInt_toString16_spec n Hn) as (k & Heq & Hk1 & _ & Hge).
  rewrite Heq, hexFixed_length.
  destruct Hge as [->|Hge]; [lia|].
  change 256 with (16 ^ 2) in Hlt. rewrite <- Z.pow_mul_r in Hlt by lia.
  assert (Hpow : 16 ^ (Z.of_nat k - 1) < 16 ^ (2 * P)) by lia.
  apply Z.pow_lt_mono_r_iff in Hpow; lia.
Qed.

(** A value that fits its length is emitted as exactly its big-endian
    bytes. *)
Lemma edtBuffer_fits (p : EchonetProperty) :
  valueFits p -> edtBuffer p = bytesBE (Z.to_nat (pdc p)) (edt p).
Proof.
  intros [Hv Hlt].
  destruct (Z.lt_ge_cases 0 (pdc p)) as [Hp|Hp].
  - rewrite edtBuffer_digits by assumption.
    pose proof (hexLength_fits (edt p) (pdc p) Hp (conj Hv Hlt)).
    rewrite Z.max_l by lia. simpl (16 ^ 0). now rewrite Z.div_1_r.
  - rewrite edtBuffer_empty by assumption.
    replace (Z.to_nat (pdc p)) with 0%nat by lia. reflexivity.
Qed.

End BigEndian.

(** ** Reading a buffer and one turn of the property loop *)

Section Reading.

Lemma skipn_Z_add (frame : Buffer) (a b : Z) :
  0 <= a -> 0 <= b ->
  skipn (Z.to_nat (a + b)) frame = skipn (Z.to_nat b) (skipn (Z.to_nat a) frame).
Proof.
  intros Ha Hb. rewrite skipn_skipn. f_equal. lia.
Qed.

Lemma skipn_app_length (frame bs rest : Buffer) (k : nat) :
  skipn k frame = bs ++ rest -> bs <> [] ->
  (k + length bs + length rest = length frame)%nat.
Proof.
  intros H Hne. pose proof (length_skipn k frame) as Hl.
  rewrite H, length_app in Hl.
  destruct bs as [|b bs]; [contradiction|]. simpl in *. lia.
Qed.

Lemma skipn_decompose (frame : Buffer) (offset k : Z) :
  0 <= offset -> 0 <= k -> offset + k <= Buffer_length frame ->
  exists bs rest : Buffer,
    skipn (Z.to_nat offset) frame = bs ++ rest /\ Z.of_nat (length bs) = k.
Proof.
  intros Ho Hk Hlen. unfold Buffer_length in Hlen.
  exists (firstn (Z.to_nat k) (skipn (Z.to_nat offset) frame)),
         (skipn (Z.to_nat k) (skipn (Z.to_nat offset) frame)).
  split; [now rewrite firstn_skipn|].
  rewrite length_firstn, length_skipn. lia.
Qed.

Lemma Buffer_readUIntBE_at (frame : Buffer) (offset n : Z) (bs rest : Buffer) :
  0 <= offset -> 0 < n ->
  skipn (Z.to_nat offset) frame = bs ++ rest ->
  Z.of_nat (length bs) = n ->
  Buffer_readUIntBE frame offset n = ret (valueBE bs).
Proof.
  intros Ho Hn Hs Hl.
  assert (Hne : bs <> []) by (destruct bs; [simpl in Hl; lia|discriminate]).
  pose proof (skipn_app_length _ _ _ _ Hs Hne) as Hlen.
  unfold Buffer_readUIntBE, Buffer_length, Buffer_subarray.
  guard_false (offset <? 0).
  guard_false (Z.of_nat (length frame) <? offset + n).
  cbn [orb]. rewrite Hs. f_equal. f_equal.
  apply firstn_exact. lia.
Qed.

Lemma valueBE_single (b : byte) : valueBE [b] = Z_of_byte b.
Proof. unfold valueBE. simpl. lia. Qed.

Lemma Buffer_readUInt8_at (frame : Buffer) (offset : Z) (b : byte) (rest : Buffer) :
  0 <= offset ->
  skipn (Z.to_nat offset) frame = b :: rest ->
  Buffer_readUInt8 frame offset = ret (Z_of_byte b).
Proof.
  intros Ho Hs. unfold Buffer_readUInt8.
  rewrite (Buffer_readUIntBE_at frame offset 1 [b] rest)
    by first [assumption | reflexivity | lia].
  now rewrite valueBE_single.
Qed.

(** One turn of the loop on a complete property record. *)
Lemma parseProperties_step (frame : Buffer) (n : nat) (offset : Z)
    (acc : list EchonetProperty) (e l : byte) (v rest : Buffer) :
  0 <= offset ->
  skipn (Z.to_nat offset) frame = e :: l :: v ++ rest ->
  Z.of_nat (length v) = Z_of_byte l ->
  parseProperties frame (S n) offset acc
  = parseProperties frame n (offset + 1 + 1 + Z_of_byte l)
      (acc ++ [ {| epc := Z_of_byte e; pdc := Z_of_byte l; edt := valueBE v |} ]).
Proof.
  intros Ho Hs Hv.
  pose proof (skipn_app_length frame (e :: l :: v) rest _ Hs ltac:(discriminate))
    as Hlen.
  cbn [length] in Hlen.
  assert (Hs1 : skipn (Z.to_nat (offset + 1)) frame = l :: v ++ rest).
  { rewrite skipn_Z_add, Hs by lia. reflexivity. }
  assert (Hs2 : skipn (Z.to_nat (offset + 1 + 1)) frame = v ++ rest).
  { rewrite skipn_Z_add, Hs1 by lia. reflexivity. }
  cbn [parseProperties]. unfold Buffer_length.
  guard_false (Z.of_nat (length frame) <? offset + 2).
  rewrite (Buffer_readUInt8_at frame offset e _ Ho Hs). cbn [bind ret].
  rewrite (Buffer_readUInt8_at frame (offset + 1) l _ ltac:(lia) Hs1).
  cbn [bind ret].
  guard_false (Z.of_nat (length frame) <? offset + 1 + 1 + Z_of_byte l).
  assert (Hsub : Buffer_subarray frame (offset + 1 + 1)
                   (offset + 1 + 1 + Z_of_byte l) = v).
  { unfold Buffer_subarray. rewrite Hs2. apply firstn_exact. lia. }
  rewrite Hsub.
  destruct (0 <? Z_of_byte l) eqn:E3.
  - apply Z.ltb_lt in E3.
    rewrite BigInt_of_hex_bytes by (destruct v; [simpl in Hv; lia|discriminate]).
    reflexivity.
  - apply Z.ltb_ge in E3.
    destruct v as [|b v]; [|simpl in Hv; lia]. reflexivity.
Qed.

(** The loop fails when the value of a record is cut short. *)
Lemma parseProperties_short_value (frame : Buffer) (n : nat) (offset : Z)
    (acc : list EchonetProperty) (e l : byte) (rest : Buffer) :
  0 <= offset ->
  skipn (Z.to_nat offset) frame = e :: l :: rest ->
  Z.of_nat (length rest) < Z_of_byte l ->
  parseProperties frame (S n) offset acc = throw Error_EdtIncomplete.
Proof.
  intros Ho Hs Hv.
  pose proof (skipn_app_length frame [e; l] rest _ Hs ltac:(discriminate))
    as Hlen.
  cbn [length] in Hlen.
  assert (Hs1 : skipn (Z.to_nat (offset + 1)) frame = l :: rest).
  { rewrite skipn_Z_add, Hs by lia. reflexivity. }
  cbn [parseProperties]. unfold Buffer_length.
  guard_false (Z.of_nat (length frame) <? offset + 2).
  rewrite (Buffer_readUInt8_at frame offset e _ Ho Hs). cbn [bind ret].
  rewrite (Buffer_readUInt8_at frame (offset + 1) l _ ltac:(lia) Hs1).
  cbn [bind ret].
  destruct (Z.of_nat (length frame) <? offset + 1 + 1 + Z_of_byte l) eqn:E2;
    [reflexivity|apply Z.ltb_ge in E2; lia].
Qed.

(** The loop fails when the code or the length byte is missing. *)
Lemma parseProperties_short_head (frame : Buffer) (n : nat) (offset : Z)
    (acc : list EchonetProperty) :
  Buffer_length frame < offset + 2 ->
  parseProperties frame (S n) offset acc = throw Error_EpcOrPdcMissing.
Proof.
  intros H. cbn [parseProperties].
  destruct (Buffer_length frame <? offset + 2) eqn:E;
    [reflexivity|apply Z.ltb_ge in E; lia].
Qed.

End Reading.

(** ** The property loop against the property encoder *)

Section PropertyLoop.

Lemma propertyToBuffer_wire (p : EchonetProperty) :
  valueFits p ->
  propertyToBuffer p
  = byte_of_Z (epc p) :: byte_of_Z (pdc p) :: bytesBE (Z.to_nat (pdc p)) (edt p).
Proof.
  intros Hv. unfold propertyToBuffer, Buffer_concat, Buffer_from_array.
  cbn [concat map app]. rewrite app_nil_r, edtBuffer_fits by assumption.
  reflexivity.
Qed.

(** Whatever the loop accepts is a sequence of encoded properties. *)
Lemma parseProperties_sound (n : nat) :
  forall (frame : Buffer) (offset : Z) (acc ps : list EchonetProperty),
    0 <= offset ->
    parseProperties frame n offset acc = ret ps ->
    exists (qs : list EchonetProperty) (rest : Buffer),
      ps = acc ++ qs /\ length qs = n /\ Forall wireProperty qs /\
      skipn (Z.to_nat offset) frame
      = Buffer_concat (map propertyToBuffer qs) ++ rest.
Proof.
  induction n as [|n IH]; intros frame offset acc ps Ho H.
  - cbn in H. injection H as <-.
    exists [], (skipn (Z.to_nat offset) frame).
    rewrite app_nil_r. repeat split; auto.
  - destruct (Z.lt_ge_cases (Buffer_length frame) (offset + 2)) as [Hshort|Hlong].
    { rewrite parseProperties_short_head in H by assumption. discriminate. }
    destruct (skipn_decompose frame offset 2 Ho ltac:(lia) Hlong)
      as (hd & rest1 & Hs & Hhd).
    destruct hd as [|e [|l [|x hd]]]; cbn [length] in Hhd; try lia.
    cbn [app] in Hs.
    destruct (Z.lt_ge_cases (Z.of_nat (length rest1)) (Z_of_byte l)) as [Hcut|Hfull].
    { rewrite (parseProperties_short_value frame n offset acc e l rest1) in H
        by assumption.
      discriminate. }
    pose proof (Z_of_byte_range e) as He.
    pose proof (Z_of_byte_range l) as Hl.
    set (L := Z.to_nat (Z_of_byte l)) in *.
    assert (Hv : Z.of_nat (length (firstn L rest1)) = Z_of_byte l).
    { rewrite length_firstn. unfold L. lia. }
    rewrite <- (firstn_skipn L rest1) in Hs.
    rewrite (parseProperties_step frame n offset acc e l _ _ Ho Hs Hv) in H.
    apply IH in H; [|lia].
    destruct H as (qs & rest & -> & Hlen & Hwf & Hrest).
    set (p := {| epc := Z_of_byte e; pdc := Z_of_byte l;
                 edt := valueBE (firstn L rest1) |}) in *.
    assert (Hfit : valueFits p).
    { unfold valueFits, p. cbn [edt pdc]. rewrite <- Hv. apply valueBE_range. }
    exists (p :: qs), rest. rewrite <- app_assoc.
    split; [reflexivity|]. split; [cbn [length]; lia|].
    split; [constructor; [repeat split; cbn; try lia; apply Hfit|assumption]|].
    cbn [map Buffer_concat concat].
    rewrite propertyToBuffer_wire by assumption. unfold p. cbn [epc pdc edt].
    rewrite !byte_of_Z_of_byte. fold L.
    pose proof (bytesBE_valueBE (firstn L rest1)) as Hback.
    replace (length (firstn L rest1)) with L in Hback by lia.
    rewrite Hback, Hs. cbn [app]. do 2 f_equal.
    rewrite <- app_assoc. f_equal.
    replace (offset + 1 + 1 + Z_of_byte l) with (offset + (2 + Z_of_byte l))
      in Hrest by lia.
    rewrite skipn_Z_add, Hs in Hrest by lia.
    replace (Z.to_nat (2 + Z_of_byte l)) with (S (S L)) in Hrest by (unfold L; lia).
    cbn [skipn] in Hrest.
    rewrite skipn_exact in Hrest by lia. exact Hrest.
Qed.

(** The loop reads back every sequence of encoded properties. *)
Lemma parseProperties_complete (qs : list EchonetProperty) :
  forall (frame : Buffer) (offset : Z) (acc : list EchonetProperty) (rest : Buffer),
    0 <= offset ->
    Forall wireProperty qs ->
    skipn (Z.to_nat offset) frame
    = Buffer_concat (map propertyToBuffer qs) ++ rest ->
    parseProperties frame (length qs) offset acc = ret (acc ++ qs).
Proof.
  induction qs as [|p qs IH]; intros frame offset acc rest Ho Hwf Hs.
  - cbn. now rewrite app_nil_r.
  - inversion Hwf as [|? ? (He & Hl & Hfit) Hwf']; subst.
    cbn [map Buffer_concat concat length] in *.
    rewrite propertyToBuffer_wire in Hs by assumption.
    cbn [app] in Hs. rewrite <- app_assoc in Hs.
    assert (Hlb : Z_of_byte (byte_of_Z (pdc p)) = pdc p)
      by (rewrite Z_of_byte_of_Z, Z.mod_small; lia).
    assert (Heb : Z_of_byte (byte_of_Z (epc p)) = epc p)
      by (rewrite Z_of_byte_of_Z, Z.mod_small; lia).
    rewrite (parseProperties_step frame (length qs) offset acc _ _ _ _ Ho Hs)
      by (rewrite bytesBE_length, Hlb; lia).
    rewrite Hlb, Heb.
    rewrite valueBE_bytesBE
      by (destruct Hfit; rewrite Z2Nat.id by lia; lia).
    replace {| epc := epc p; pdc := pdc p; edt := edt p |} with p
      by (destruct p; reflexivity).
    rewrite (IH frame _ (acc ++ [p]) rest); [now rewrite <- app_assoc|lia|assumption|].
    replace (offset + 1 + 1 + pdc p) with (offset + (2 + pdc p)) by lia.
    rewrite skipn_Z_add, Hs by lia.
    replace (Z.to_nat (2 + pdc p)) with (S (S (Z.to_nat (pdc p)))) by lia.
    cbn [skipn]. apply skipn_exact, bytesBE_length.
Qed.

End PropertyLoop.

(** ** Response correlation *)

Section Correlation.

(** C4: [isValidResponse] holds exactly when the candidate's source is the
    request's destination, its destination the request's source, and the
    transaction ids agree; once it holds, replacing any one of the three
    compared fields of the candidate by a different value makes it false;
    the candidate's service code and properties never matter. *)
Theorem isValidResponse_correlates (this candidate : EchonetData) :
  (isValidResponse this candidate = true <->
     seoj candidate = deoj this /\
     deoj candidate = seoj this /\
     tid candidate = tid this) /\
  (isValidResponse this candidate = true ->
     (forall v, v <> seoj candidate ->
                isValidResponse this (withSeoj candidate v) = false) /\
     (forall v, v <> deoj candidate ->
                isValidResponse this (withDeoj candidate v) = false) /\
     (forall v, v <> tid candidate ->
                isValidResponse this (withTid candidate v) = false)) /\
  (forall e ps,
     isValidResponse this (withPayload candidate e ps)
     = isValidResponse this candidate).
Proof.
  unfold isValidResponse. split; [|split].
  - rewrite !andb_true_iff, !Z.eqb_eq. intuition congruence.
  - rewrite !andb_true_iff, !Z.eqb_eq. intros [[H1 H2] H3].
    repeat split; intros v Hv; cbn [withSeoj withDeoj withTid seoj deoj tid].
    + replace (deoj this =? v) with false; [reflexivity|].
      symmetry. apply Z.eqb_neq. congruence.
    + replace (seoj this =? v) with false;
        [now rewrite andb_false_r|].
      symmetry. apply Z.eqb_neq. congruence.
    + replace (tid this =? v) with false; [apply andb_false_r|].
      symmetry. apply Z.eqb_neq. congruence.
  - reflexivity.
Qed.

Lemma isValidResponse_correlates_witness :
  isValidResponse exampleFrame
    {| tid := 0x0001; seoj := 0x028801; deoj := 0x05FF01; esv := 0x72;
       properties := [] |} = true /\
  isValidResponse exampleFrame
    {| tid := 0x0002; seoj := 0x028801; deoj := 0x05FF01; esv := 0x72;
       properties := [] |} = false.
Proof.
  pose proof (isValidResponse_correlates exampleFrame
                {| tid := 0x0001; seoj := 0x028801; deoj := 0x05FF01;
                   esv := 0x72; properties := [] |}) as (Hiff & Hchg & _).
  assert (Hok : isValidResponse exampleFrame
                  {| tid := 0x0001; seoj := 0x028801; deoj := 0x05FF01;
                     esv := 0x72; properties := [] |} = true)
    by (apply Hiff; repeat split; reflexivity).
  split; [exact Hok|].
  destruct (Hchg Hok) as (_ & _ & Htid).
  apply (Htid 0x0002). discriminate.
Defined.

End Correlation.

(** ** The worked example *)

Section WorkedExample.

(** C9: the fourteen bytes 10 81 00 01 05 FF 01 02 88 01 62 01 E7 00 parse
    to the frame with transaction id 0x0001, source 0x05FF01, destination
    0x028801, service 0x62 and the single property (0xE7, length 0,
    value 0), and that frame serializes to the same fourteen bytes. *)
Theorem example_parses_and_serializes :
  parse exampleBytes = ret exampleFrame /\
  toBuffer exampleFrame = ret exampleBytes.
Proof.
  split; vm_compute; reflexivity.
Qed.

End WorkedExample.

(** ** Property accessors *)

Section Accessors.

Lemma find_firstWithCode (ps : list EchonetProperty) (code : Z)
    (p : EchonetProperty) :
  find (fun property => epc property =? code) ps = Some p
  <-> firstWithCode ps code p.
Proof.
  unfold firstWithCode. split.
  - induction ps as [|a ps IH]; cbn [find]; [discriminate|].
    destruct (epc a =? code) eqn:E.
    + intros [= ->]. apply Z.eqb_eq in E.
      exists [], ps. repeat split; auto.
    + intros H. apply Z.eqb_neq in E.
      destruct (IH H) as (before & after & -> & Hc & Hb).
      exists (a :: before), after. repeat split; auto.
  - intros (before & after & -> & Hc & Hb).
    induction Hb as [|a before Ha Hb IH]; cbn [app find].
    + apply Z.eqb_eq in Hc. now rewrite Hc.
    + apply Z.eqb_neq in Ha. now rewrite Ha.
Qed.

Lemma find_absent (ps : list EchonetProperty) (code : Z) :
  find (fun property => epc property =? code) ps = None
  <-> Forall (fun q => epc q <> code) ps.
Proof.
  induction ps as [|a ps IH]; cbn [find].
  - split; auto.
  - destruct (epc a =? code) eqn:E.
    + apply Z.eqb_eq in E. split; [discriminate|].
      intros H. inversion H; subst. contradiction.
    + apply Z.eqb_neq in E. rewrite IH. split.
      * intros H. now constructor.
      * intros H. now inversion H.
Qed.

(** [Number(z)] is exact on the safe integers. *)
Lemma Number_of_BigInt_exact (z : Z) :
  Z.abs z < 2 ^ 53 -> Number_of_BigInt z = Finite (inject_Z z).
Proof.
  intros Hz. unfold Number_of_BigInt, roundSig53.
  assert (Hlog : Z.log2 (Z.abs z) - 52 <= 0).
  { destruct (Z.eq_dec (Z.abs z) 0) as [->|Hnz]; [simpl; lia|].
    assert (Z.log2 (Z.abs z) < 53) by (apply Z.log2_lt_pow2; lia).
    lia. }
  apply Z.leb_le in Hlog. rewrite Hlog.
  assert (Hbig : (2 ^ 1024 <=? Z.abs z) = false).
  { apply Z.leb_gt. eapply Z.lt_trans; [exact Hz|].
    apply Z.pow_lt_mono_r; lia. }
  rewrite Hbig. do 2 f_equal. destruct z; reflexivity.
Qed.

(** C7: [getEdt] fails with the not-found error exactly when no property
    has the code, fails with the cannot-convert error exactly when the
    first property with the code is longer than 6 bytes, and otherwise
    returns the value of that first property converted to a number (the
    value itself whenever it fits its length); [getEdtAsBigInt] does the
    same first-match lookup, fails only when the code is absent, and
    returns the value whatever the length. *)
Theorem accessors_first_match (f : EchonetData) (code : Z) :
  (getEdt f code = throw Error_PropertyNotFound
   <-> Forall (fun q => epc q <> code) (properties f)) /\
  (getEdt f code = throw Error_CannotConvertToNumber
   <-> exists p, firstWithCode (properties f) code p /\ 6 < pdc p) /\
  (forall p, firstWithCode (properties f) code p -> pdc p <= 6 ->
             getEdt f code = ret (Number_of_BigInt (edt p)) /\
             (valueFits p -> Number_of_BigInt (edt p) = Finite (inject_Z (edt p)))) /\
  (forall e, getEdt f code = throw e ->
             e = Error_PropertyNotFound \/ e = Error_CannotConvertToNumber) /\
  (getEdtAsBigInt f code = throw Error_PropertyNotFound
   <-> Forall (fun q => epc q <> code) (properties f)) /\
  (forall p, firstWithCode (properties f) code p ->
             getEdtAsBigInt f code = ret (edt p)) /\
  (forall e, getEdtAsBigInt f code = throw e -> e = Error_PropertyNotFound).
Proof.
  unfold getEdt, getEdtAsBigInt, findProperty.
  pose proof (find_absent (properties f) code) as Habs.
  destruct (find (fun property => epc property =? code) (properties f))
    as [q|] eqn:Hfind.
  - apply find_firstWithCode in Hfind.
    assert (Huniq : forall p, firstWithCode (properties f) code p -> p = q).
    { intros p Hp. apply find_firstWithCode in Hp, Hfind. congruence. }
    assert (Hpresent : ~ Forall (fun q => epc q <> code) (properties f)).
    { intros HF. apply Habs in HF. discriminate. }
    repeat split.
    + destruct (6 <? pdc q); discriminate.
    + intros HF. contradiction.
    + intros H. exists q. split; [assumption|].
      destruct (6 <? pdc q) eqn:E; [now apply Z.ltb_lt|discriminate].
    + intros (p & Hp & Hlen). apply Huniq in Hp. subst p.
      apply Z.ltb_lt in Hlen. now rewrite Hlen.
    + apply Huniq in H. subst p.
      destruct (6 <? pdc q) eqn:E; [apply Z.ltb_lt in E; lia|reflexivity].
    + intros [Hv Hlt]. apply Number_of_BigInt_exact.
      assert (256 ^ pdc p <= 256 ^ 6) by (apply Z.pow_le_mono_r; lia).
      change (256 ^ 6) with (2 ^ 48) in *.
      assert (2 ^ 48 < 2 ^ 53) by reflexivity. lia.
    + intros e He. destruct (6 <? pdc q); inversion He; auto.
    + discriminate.
    + intros HF. contradiction.
    + intros p Hp. apply Huniq in Hp. now subst p.
    + discriminate.
  - assert (Habsent : Forall (fun q => epc q <> code) (properties f))
      by now apply Habs.
    assert (Hnone : forall p, ~ firstWithCode (properties f) code p).
    { intros p Hp. apply find_firstWithCode in Hp. congruence. }
    repeat split; auto; try discriminate.
    + intros (p & Hp & _). now apply Hnone in Hp.
    + now apply Hnone in H.
    + now apply Hnone in H.
    + intros e He. inversion He; auto.
    + intros p Hp. now apply Hnone in Hp.
    + intros e He. now inversion He.
Qed.

Lemma accessors_first_match_witness :
  getEdt {| tid := 1; seoj := 2; deoj := 3; esv := 0x72;
            properties := [ {| epc := 0xE7; pdc := 2; edt := 0x1234 |};
                            {| epc := 0xE7; pdc := 8; edt := 7 |} ] |} 0xE7
  = ret (Number_of_BigInt 0x1234).
Proof.
  refine (proj1 (proj1 (proj2 (proj2 (accessors_first_match _ 0xE7)))
                   {| epc := 0xE7; pdc := 2; edt := 0x1234 |} _ _)).
  - exists [], [ {| epc := 0xE7; pdc := 8; edt := 7 |} ].
    repeat split; constructor.
  - cbn. lia.
Defined.

End Accessors.

(** ** The generated transaction id *)

Section RandomTid.

Lemma roundSig53_small (n : Z) : Z.log2 n <= 52 -> roundSig53 n = n.
Proof.
  intros H. unfold roundSig53.
  destruct (Z.log2 n - 52 <=? 0) eqn:E; [reflexivity|].
  apply Z.leb_gt in E. lia.
Qed.

(** Rounding moves a value by at most half a unit in the last place. *)
Lemma roundSig53_bounds (n : Z) :
  0 <= n -> 52 < Z.log2 n ->
  n - 2 ^ (Z.log2 n - 53) <= roundSig53 n <= n + 2 ^ (Z.log2 n - 53).
Proof.
  intros Hn Hlog. unfold roundSig53.
  guard_false (Z.log2 n - 52 <=? 0).
  clear E. set (s := Z.log2 n - 52).
  replace (Z.log2 n - 53) with (s - 1) by (unfold s; lia).
  assert (Hs : 0 < s) by (unfold s; lia).
  assert (Hpow : 2 ^ s = 2 * 2 ^ (s - 1)).
  { replace s with (Z.succ (s - 1)) at 1 by lia.
    rewrite Z.pow_succ_r by lia. reflexivity. }
  assert (Hh : 0 < 2 ^ (s - 1)) by (apply Z.pow_pos_nonneg; lia).
  pose proof (Z.div_mod n (2 ^ s) ltac:(lia)) as Hdm.
  pose proof (Z.mod_pos_bound n (2 ^ s) ltac:(lia)) as Hmb.
  set (q := n / 2 ^ s) in *. set (r := n mod 2 ^ s) in *.
  set (h := 2 ^ (s - 1)) in *. set (P := 2 ^ s) in *.
  destruct ((h <? r) || ((r =? h) && Z.odd q)) eqn:C.
  - assert (h <= r).
    { apply orb_true_iff in C. destruct C as [C|C].
      - apply Z.ltb_lt in C. lia.
      - apply andb_true_iff in C. destruct C as [C _].
        apply Z.eqb_eq in C. lia. }
    nia.
  - apply orb_false_iff in C. destruct C as [C _].
    apply Z.ltb_ge in C. nia.
Qed.

Lemma roundSig53_nonneg (n : Z) : 0 <= n -> 0 <= roundSig53 n.
Proof.
  intros Hn. destruct (Z.le_gt_cases (Z.log2 n) 52) as [H|H].
  - now rewrite roundSig53_small.
  - pose proof (roundSig53_bounds n Hn H) as [Hlo _].
    assert (2 ^ (Z.log2 n - 53) <= 2 ^ Z.log2 n)
      by (apply Z.pow_le_mono_r; lia).
    pose proof (Z.log2_spec n ltac:(destruct (Z.eq_dec n 0); [subst; simpl in H|]; lia)).
    lia.
Qed.

(** Whatever [Math.random()] returns, the product rounds to a double below
    0xffff, so its floor is at most 0xFFFE. *)
Lemma randomTid_range (rnd : UnitDouble) :
  UnitDouble_ok rnd -> 0 <= randomTid rnd <= 0xFFFE.
Proof.
  intros ((Hm0 & Hm53) & (He0 & _) & Hme).
  unfold randomTid, Math_floor_mul.
  set (m := mant rnd) in *. set (e := expo rnd) in *.
  assert (HP : 0 < 2 ^ e) by (apply Z.pow_pos_nonneg; lia).
  assert (Hn : 0 <= m * 65535) by lia.
  assert (Hupper : roundSig53 (m * 65535) < 65535 * 2 ^ e).
  { destruct (Z.le_gt_cases (Z.log2 (m * 65535)) 52) as [Hs|Hs].
    - rewrite roundSig53_small by assumption. lia.
    - pose proof (roundSig53_bounds _ Hn Hs) as [_ Hhi].
      (* the exponent of the product is below 16 + min e 53 *)
      set (E := Z.min e 53).
      assert (HmE : m < 2 ^ E).
      { unfold E. destruct (Z.le_gt_cases e 53).
        - rewrite Z.min_l by lia. assumption.
        - rewrite Z.min_r by lia. assumption. }
      assert (HEe : 2 ^ E <= 2 ^ e) by (apply Z.pow_le_mono_r; unfold E; lia).
      assert (Hlog : Z.log2 (m * 65535) < 16 + E).
      { apply Z.log2_lt_pow2.
        - destruct (Z.eq_dec m 0) as [Hz|Hz]; [|lia].
          rewrite Hz in Hs. simpl in Hs. lia.
        - rewrite Z.pow_add_r by (unfold E; lia).
          change (2 ^ 16) with 65536.
          assert (0 < 2 ^ E) by (apply Z.pow_pos_nonneg; unfold E; lia).
          nia. }
      assert (Hulp : 2 ^ (Z.log2 (m * 65535) - 53) <= 2 ^ 15)
        by (apply Z.pow_le_mono_r; unfold E in *; lia).
      change (2 ^ 15) with 32768 in Hulp.
      nia. }
  pose proof (roundSig53_nonneg _ Hn) as Hlower.
  assert (Hq : roundSig53 (m * 65535) / 2 ^ e < 65535)
    by (apply Z.div_lt_upper_bound; lia).
  assert (0 <= roundSig53 (m * 65535) / 2 ^ e) by (apply Z.div_pos; lia).
  change 0xFFFE with 65534. lia.
Qed.

(** The largest double below 1 yields 0xFFFE. *)
Example randomTid_largest_outcome :
  randomTid (mkUnitDouble (2 ^ 53 - 1) 53) = 0xFFFE.
Proof. vm_compute. reflexivity. Qed.

End RandomTid.

(** ** The fixed part of a frame *)

Section FixedFields.

(** [parse] on a buffer of at least twelve bytes. *)
Lemma parse_twelve (b0 b1 b2 b3 b4 b5 b6 b7 b8 b9 b10 b11 : byte) (rest : Buffer) :
  let frame :=
    b0 :: b1 :: b2 :: b3 :: b4 :: b5 :: b6 :: b7 :: b8 :: b9 :: b10 :: b11 :: rest in
  parse frame
  = if negb (valueBE [b0; b1] =? 0x1081) then throw Error_InvalidHeader
    else
      props <- parseProperties frame (Z.to_nat (Z_of_byte b11)) 12 [] ;;
      ret {| tid := valueBE [b2; b3];
             seoj := valueBE [b4; b5; b6];
             deoj := valueBE [b7; b8; b9];
             esv := Z_of_byte b10;
             properties := props |}.
Proof.
  intros frame. unfold parse, Buffer_readUInt16BE.
  rewrite (Buffer_readUIntBE_at frame 0 2 [b0; b1]
             (b2 :: b3 :: b4 :: b5 :: b6 :: b7 :: b8 :: b9 :: b10 :: b11 :: rest))
    by first [reflexivity | lia].
  cbn [bind ret].
  destruct (negb (valueBE [b0; b1] =? 0x1081)); [reflexivity|].
  assert (Hlen : (Buffer_length frame <? 12) = false).
  { apply Z.ltb_ge. unfold Buffer_length, frame. cbn [length]. lia. }
  rewrite Hlen.
  rewrite (Buffer_readUIntBE_at frame 2 2 [b2; b3]
             (b4 :: b5 :: b6 :: b7 :: b8 :: b9 :: b10 :: b11 :: rest))
    by first [reflexivity | lia].
  rewrite (Buffer_readUIntBE_at frame 4 3 [b4; b5; b6]
             (b7 :: b8 :: b9 :: b10 :: b11 :: rest))
    by first [reflexivity | lia].
  rewrite (Buffer_readUIntBE_at frame 7 3 [b7; b8; b9] (b10 :: b11 :: rest))
    by first [reflexivity | lia].
  rewrite (Buffer_readUInt8_at frame 10 b10 (b11 :: rest))
    by first [reflexivity | lia].
  rewrite (Buffer_readUInt8_at frame 11 b11 rest) by first [reflexivity | lia].
  reflexivity.
Qed.

(** [parse] rejects every buffer shorter than twelve bytes. *)
Lemma parse_short (frame : Buffer) :
  Buffer_length frame < 12 -> exists e, parse frame = throw e.
Proof.
  intros Hlen. unfold parse.
  destruct (Buffer_readUInt16BE frame 0) as [e|h]; cbn [bind]; [now exists e|].
  destruct (negb (h =? 0x1081)); [now eexists|].
  destruct (Buffer_length frame <? 12) eqn:E; [now eexists|].
  apply Z.ltb_ge in E. lia.
Qed.

Lemma at_least_twelve (frame : Buffer) :
  12 <= Buffer_length frame ->
  exists b0 b1 b2 b3 b4 b5 b6 b7 b8 b9 b10 b11 rest,
    frame
    = b0 :: b1 :: b2 :: b3 :: b4 :: b5 :: b6 :: b7 :: b8 :: b9 :: b10 :: b11 :: rest.
Proof.
  unfold Buffer_length. intros H.
  do 12 (destruct frame as [|? frame]; [cbn [length] in H; lia|]).
  repeat eexists.
Qed.

Lemma header_bytes (b0 b1 : byte) :
  valueBE [b0; b1] = 0x1081 -> b0 = x10 /\ b1 = x81.
Proof.
  intros H. rewrite valueBE_cons, valueBE_single in H. cbn [length] in H.
  pose proof (Z_of_byte_range b0). pose proof (Z_of_byte_range b1).
  change (256 ^ Z.of_nat 1) with 256 in H. change 0x1081 with 4225 in H.
  split; apply Z_of_byte_inj.
  - change (Z_of_byte x10) with 16. lia.
  - change (Z_of_byte x81) with 129. lia.
Qed.

Lemma writeUIntBE_valueBE (bs : list byte) :
  Buffer_writeUIntBE (valueBE bs) (Z.of_nat (length bs)) = ret bs.
Proof.
  unfold Buffer_writeUIntBE. pose proof (valueBE_range bs) as [H0 H1].
  guard_false (valueBE bs <? 0).
  guard_false (256 ^ Z.of_nat (length bs) <=? valueBE bs).
  cbn [orb]. now rewrite Nat2Z.id, bytesBE_valueBE.
Qed.

Lemma writeUIntBE_fits (v n : Z) :
  0 <= v < 256 ^ n ->
  Buffer_writeUIntBE v n = ret (bytesBE (Z.to_nat n) v).
Proof.
  intros [H0 H1]. unfold Buffer_writeUIntBE.
  guard_false (v <? 0).
  guard_false (256 ^ n <=? v).
  reflexivity.
Qed.

End FixedFields.

(** ** Mapping a callback that may throw *)

Section MapM.

Context {A B : Type} (f : A -> Result B).

Lemma mapM_ret (l : list A) (bs : list B) :
  mapM f l = ret bs <-> Forall2 (fun a b => f a = ret b) l bs.
Proof.
  revert bs. induction l as [|a l IH]; intros bs; cbn [mapM].
  - split.
    + intros [= <-]. constructor.
    + intros H. now inversion H.
  - split.
    + destruct (f a) as [e|b] eqn:Ea; cbn [bind]; [discriminate|].
      destruct (mapM f l) as [e|bs'] eqn:El; cbn [bind]; [discriminate|].
      intros [= <-]. constructor; [exact Ea|]. now apply IH.
    + intros H. inversion H as [|? b ? bs' Hb Hl]; subst.
      apply IH in Hl. rewrite Hb, Hl. reflexivity.
Qed.

Lemma mapM_throw (l : list A) :
  (exists e, mapM f l = throw e) <-> Exists (fun a => exists e, f a = throw e) l.
Proof.
  induction l as [|a l IH]; cbn [mapM].
  - split.
    + intros [e He]. discriminate.
    + intros H. inversion H.
  - destruct (f a) as [e|b] eqn:Ea; cbn [bind].
    + split.
      * intros _. left. now exists e.
      * intros _. now exists e.
    + destruct (mapM f l) as [e|bs'] eqn:El; cbn [bind].
      * split.
        -- intros _. right. apply IH. now exists e.
        -- intros _. now exists e.
      * split.
        -- intros [e He]. discriminate.
        -- intros H. inversion H as [? ? [e He]|? ? Hl]; subst.
           ++ unfold throw in He. congruence.
           ++ apply IH in Hl. destruct Hl as [e He]. discriminate.
Qed.

Lemma mapM_throw_source (l : list A) (e : Error) :
  mapM f l = throw e -> exists a, In a l /\ f a = throw e.
Proof.
  induction l as [|a l IH]; cbn [mapM]; [discriminate|].
  destruct (f a) as [e'|b] eqn:Ea; cbn [bind].
  - intros [= ->]. exists a. split; [now left|assumption].
  - destruct (mapM f l) as [e'|bs'] eqn:El; cbn [bind]; [|discriminate].
    intros [= ->]. destruct (IH eq_refl) as (x & Hx & Hf).
    exists x. split; [now right|assumption].
Qed.

End MapM.

(** ** Construction *)

Section Construction.

Lemma Number_isInteger_iff (x : Number) :
  Number_isInteger x = true <-> Number_isIntegral x.
Proof.
  destruct x as [| | |q]; cbn; try (split; [discriminate|tauto]).
  rewrite Z.eqb_eq. unfold Qeq. cbn. split.
  - intros H. exists (Qnum q / Z.pos (Qden q)).
    apply Z.div_exact in H; lia.
  - intros [z Hz]. rewrite Z.mul_1_r in Hz. rewrite Hz.
    apply Z.mod_mul. lia.
Qed.

Lemma Number_ltb_zero_iff (x : Number) :
  Number_ltb_zero x = true <-> Number_isNegative x.
Proof.
  destruct x as [| | |q]; cbn; try (split; [discriminate|tauto]);
    try tauto.
  rewrite Z.ltb_lt. unfold Qlt. cbn. lia.
Qed.

Lemma Math_ceil_half_bounds (k : Z) :
  2 * Math_ceil_half k - 1 <= k <= 2 * Math_ceil_half k.
Proof.
  unfold Math_ceil_half.
  pose proof (Z.div_mod (- k) 2 ltac:(lia)).
  pose proof (Z.mod_pos_bound (- k) 2 ltac:(lia)). lia.
Qed.

(** The computed length is the least positive number of bytes that holds
    the value. *)
Lemma calculatedPdc_minimal (v : Z) :
  0 <= v ->
  let P := Math_ceil_half (hexLength v) in
  1 <= P /\ v < 256 ^ P /\ (P = 1 \/ 256 ^ (P - 1) <= v).
Proof.
  intros Hv P. unfold P, hexLength.
  destruct (BigInt_toString16_spec v Hv) as (k & Heq & Hk1 & Hlt & Hge).
  rewrite Heq, hexFixed_length.
  pose proof (Math_ceil_half_bounds (Z.of_nat k)) as Hb.
  set (Q := Math_ceil_half (Z.of_nat k)) in *.
  assert (HQ : 1 <= Q) by lia.
  change 256 with (16 ^ 2). rewrite <- !Z.pow_mul_r by lia.
  split; [assumption|]. split.
  - eapply Z.lt_le_trans; [exact Hlt|]. apply Z.pow_le_mono_r; lia.
  - destruct (Z.eq_dec Q 1) as [H1|H1]; [now left|right].
    destruct Hge as [->|Hge]; [lia|].
    eapply Z.le_trans; [|exact Hge]. apply Z.pow_le_mono_r; lia.
Qed.

Lemma createProperty_ret (i : PropertyInput) (p : EchonetProperty) :
  createProperty i = ret p ->
  epc p = in_epc i /\ 0 <= edt p /\
  pdc p = Math_ceil_half (hexLength (edt p)) /\
  suppliedValue (in_edt i) (edt p).
Proof.
  unfold createProperty, hexLength.
  destruct (in_edt i) as [x|z|].
  - destruct (negb (Number_isInteger x) || Number_ltb_zero x) eqn:E;
      [discriminate|].
    apply orb_false_iff in E. destruct E as [Ei En].
    apply negb_false_iff in Ei.
    unfold BigInt_of_Number. rewrite Ei.
    destruct x as [| | |q]; try discriminate.
    cbn [bind ret]. intros [= <-]. cbn [epc pdc edt suppliedValue].
    cbn in Ei, En. apply Z.eqb_eq in Ei. apply Z.ltb_ge in En.
    repeat split; auto.
    + apply Z.div_pos; lia.
    + unfold Qeq. cbn. apply Z.div_exact in Ei; lia.
  - destruct (z <? 0) eqn:E; [discriminate|]. apply Z.ltb_ge in E.
    cbn [bind ret]. intros [= <-]. cbn. auto.
  - cbn [bind ret]. intros [= <-]. cbn. repeat split; auto; lia.
Qed.

Lemma createProperty_throw (i : PropertyInput) :
  (exists e, createProperty i = throw e) <-> rejectedEdt (in_edt i).
Proof.
  unfold createProperty, rejectedEdt.
  destruct (in_edt i) as [x|z|].
  - rewrite <- Number_isInteger_iff, <- Number_ltb_zero_iff.
    destruct (Number_isInteger x) eqn:Ei, (Number_ltb_zero x) eqn:En;
      cbn [negb orb bind].
    + split; [intros _; now left|intros _; now eexists].
    + unfold BigInt_of_Number. rewrite Ei.
      destruct x; try discriminate. cbn [bind ret].
      split; [intros [e He]; discriminate|].
      intros [H|H]; [discriminate|]. now contradiction H.
    + split; [intros _; now left|intros _; now eexists].
    + split; [intros _; right; discriminate|intros _; now eexists].
  - destruct (z <? 0) eqn:E; cbn [bind].
    + apply Z.ltb_lt in E. split; [auto|intros _; now eexists].
    + apply Z.ltb_ge in E. split; [intros [e He]; discriminate|lia].
  - cbn [bind]. split; [intros [e He]; discriminate|tauto].
Qed.

Lemma createProperty_throw_kind (i : PropertyInput) (e : Error) :
  createProperty i = throw e ->
  e = TypeError_EdtMustBePositiveInteger \/ e = RangeError_EdtMustBePositive.
Proof.
  unfold createProperty.
  destruct (in_edt i) as [x|z|].
  - destruct (negb (Number_isInteger x) || Number_ltb_zero x) eqn:E.
    + cbn [bind throw]. intros [= <-]. now left.
    + apply orb_false_iff in E. destruct E as [Ei _].
      apply negb_false_iff in Ei. unfold BigInt_of_Number. rewrite Ei.
      destruct x; try discriminate.
  - destruct (z <? 0); [|discriminate].
    cbn [bind throw]. intros [= <-]. now right.
  - discriminate.
Qed.

Lemma create_ret (rnd : UnitDouble) (args : CreateArgs) (f : EchonetData) :
  create rnd args = ret f ->
  Forall2 (fun i p => createProperty i = ret p) (arg_properties args) (properties f) /\
  tid f = match arg_tid args with Some t => t | None => randomTid rnd end /\
  seoj f = arg_seoj args /\ deoj f = arg_deoj args /\ esv f = arg_esv args.
Proof.
  unfold create.
  destruct (mapM createProperty (arg_properties args)) as [e|ps] eqn:E;
    cbn [bind ret]; [discriminate|].
  intros [= <-]. cbn. apply mapM_ret in E. auto.
Qed.

End Construction.

(** ** Claims about construction *)

Section ConstructionClaims.

Lemma hexLength_is_digit_count (v : Z) :
  0 <= v -> isHexDigitCount v (hexLength v).
Proof.
  intros Hv. unfold isHexDigitCount, hexLength.
  destruct (BigInt_toString16_spec v Hv) as (k & Heq & Hk1 & Hlt & Hge).
  rewrite Heq, hexFixed_length. repeat split; [lia|assumption|].
  destruct Hge as [->|Hge]; [now left|now right].
Qed.

Lemma createProperty_minimal (i : PropertyInput) (p : EchonetProperty) :
  createProperty i = ret p -> 0 <= edt p /\ lengthIsMinimal p.
Proof.
  intros H. apply createProperty_ret in H.
  destruct H as (_ & Hv & Hp & _). split; [assumption|].
  destruct (calculatedPdc_minimal (edt p) Hv) as (H1 & Hlt & Hmin).
  rewrite <- Hp in *. unfold lengthIsMinimal.
  split; [assumption|]. split; [assumption|].
  intros n Hn Hfit. destruct Hmin as [->|Hmin]; [assumption|].
  assert (Hpow : 256 ^ (pdc p - 1) < 256 ^ n) by lia.
  apply Z.pow_lt_mono_r_iff in Hpow; lia.
Qed.

(** C5: every property that [create] builds carries the supplied value (0
    when the value is left out) and a length equal to the ceiling of half
    the number of hexadecimal digits of the value, which is the least
    positive number of bytes that holds it; so a value left out gives
    value 0 with length 1, value 0 gives length 1, value 255 gives
    length 1 and value 256 gives length 2. *)
Theorem create_minimal_length (rnd : UnitDouble) (args : CreateArgs)
    (f : EchonetData) :
  create rnd args = ret f ->
  Forall2
    (fun i p =>
       epc p = in_epc i /\
       suppliedValue (in_edt i) (edt p) /\
       isHexDigitCount (edt p) (hexLength (edt p)) /\
       pdc p = Math_ceil_half (hexLength (edt p)) /\
       lengthIsMinimal p /\
       (in_edt i = EdtUndefined -> edt p = 0 /\ pdc p = 1) /\
       (edt p = 0 -> pdc p = 1) /\
       (edt p = 255 -> pdc p = 1) /\
       (edt p = 256 -> pdc p = 2))
    (arg_properties args) (properties f).
Proof.
  intros H. apply create_ret in H. destruct H as (H & _).
  eapply Forall2_impl; [|exact H].
  intros i p Hip. cbv beta in Hip.
  pose proof (createProperty_minimal i p Hip) as (Hv & Hmin).
  apply createProperty_ret in Hip. destruct Hip as (He & _ & Hp & Hs).
  split; [assumption|]. split; [assumption|].
  split; [now apply hexLength_is_digit_count|].
  split; [assumption|]. split; [assumption|].
  assert (H0 : edt p = 0 -> pdc p = 1) by (intros E; rewrite Hp, E; reflexivity).
  split.
  - intros Hu. rewrite Hu in Hs. cbn in Hs. auto.
  - split; [assumption|].
    split; intros E; rewrite Hp, E; reflexivity.
Qed.

Lemma create_minimal_length_witness :
  Forall2
    (fun i p =>
       epc p = in_epc i /\
       suppliedValue (in_edt i) (edt p) /\
       isHexDigitCount (edt p) (hexLength (edt p)) /\
       pdc p = Math_ceil_half (hexLength (edt p)) /\
       lengthIsMinimal p /\
       (in_edt i = EdtUndefined -> edt p = 0 /\ pdc p = 1) /\
       (edt p = 0 -> pdc p = 1) /\
       (edt p = 255 -> pdc p = 1) /\
       (edt p = 256 -> pdc p = 2))
    [ {| in_epc := 0x80; in_edt := EdtUndefined |};
      {| in_epc := 0xE7; in_edt := EdtNumber (Finite (inject_Z 255)) |};
      {| in_epc := 0xE0; in_edt := EdtBigInt 256 |} ]
    [ {| epc := 0x80; pdc := 1; edt := 0 |};
      {| epc := 0xE7; pdc := 1; edt := 255 |};
      {| epc := 0xE0; pdc := 2; edt := 256 |} ].
Proof.
  exact (create_minimal_length (mkUnitDouble 0 0)
           {| arg_tid := Some 1; arg_seoj := 0x05FF01; arg_deoj := 0x028801;
              arg_esv := 0x62;
              arg_properties :=
                [ {| in_epc := 0x80; in_edt := EdtUndefined |};
                  {| in_epc := 0xE7; in_edt := EdtNumber (Finite (inject_Z 255)) |};
                  {| in_epc := 0xE0; in_edt := EdtBigInt 256 |} ] |}
           _ eq_refl).
Defined.

Example createProperty_examples (c : Z) :
  createProperty {| in_epc := c; in_edt := EdtUndefined |}
  = ret {| epc := c; pdc := 1; edt := 0 |} /\
  createProperty {| in_epc := c; in_edt := EdtNumber (Finite (inject_Z 0)) |}
  = ret {| epc := c; pdc := 1; edt := 0 |} /\
  createProperty {| in_epc := c; in_edt := EdtNumber (Finite (inject_Z 255)) |}
  = ret {| epc := c; pdc := 1; edt := 255 |} /\
  createProperty {| in_epc := c; in_edt := EdtNumber (Finite (inject_Z 256)) |}
  = ret {| epc := c; pdc := 2; edt := 256 |} /\
  createProperty {| in_epc := c; in_edt := EdtBigInt 0 |}
  = ret {| epc := c; pdc := 1; edt := 0 |} /\
  createProperty {| in_epc := c; in_edt := EdtBigInt 255 |}
  = ret {| epc := c; pdc := 1; edt := 255 |} /\
  createProperty {| in_epc := c; in_edt := EdtBigInt 256 |}
  = ret {| epc := c; pdc := 2; edt := 256 |}.
Proof. repeat split. Qed.

(** C6: [create] throws exactly when some supplied value is a number that
    is negative or not an integer, or a bigint that is negative; what it
    throws is then one of the two validation errors; and when every value
    is a non-negative integer or left out, it returns a frame. *)
Theorem create_fails_iff_rejected (rnd : UnitDouble) (args : CreateArgs) :
  ((exists e, create rnd args = throw e)
   <-> Exists (fun i => rejectedEdt (in_edt i)) (arg_properties args)) /\
  (forall e, create rnd args = throw e -> isValidationError e) /\
  (Forall (fun i => ~ rejectedEdt (in_edt i)) (arg_properties args) ->
   exists f, create rnd args = ret f).
Proof.
  assert (Hiff : (exists e, create rnd args = throw e)
                 <-> Exists (fun i => rejectedEdt (in_edt i)) (arg_properties args)).
  { transitivity (exists e, mapM createProperty (arg_properties args) = throw e).
    - unfold create.
      destruct (mapM createProperty (arg_properties args)) as [e|ps];
        cbn [bind ret].
      + split; intros _; now exists e.
      + split; intros [e He]; discriminate.
    - rewrite mapM_throw, !Exists_exists.
      split; intros (i & Hin & Hi); exists i; (split; [assumption|]);
        now apply createProperty_throw. }
  split; [exact Hiff|]. split.
  - unfold create. intros e He.
    destruct (mapM createProperty (arg_properties args)) as [e'|ps] eqn:E;
      cbn [bind ret] in He; [|discriminate].
    injection He as ->.
    apply mapM_throw_source in E. destruct E as (i & _ & Hi).
    now apply createProperty_throw_kind in Hi.
  - intros Hall. destruct (create rnd args) as [e|f] eqn:E; [|now exists f].
    exfalso.
    assert (Hex : Exists (fun i => rejectedEdt (in_edt i)) (arg_properties args))
      by (apply Hiff; now exists e).
    apply Exists_exists in Hex. destruct Hex as (i & Hin & Hrej).
    rewrite Forall_forall in Hall. exact (Hall i Hin Hrej).
Qed.

Lemma create_fails_iff_rejected_witness :
  exists f,
    create (mkUnitDouble 0 0)
      {| arg_tid := None; arg_seoj := 0x05FF01; arg_deoj := 0x028801;
         arg_esv := 0x62;
         arg_properties :=
           [ {| in_epc := 0xE7; in_edt := EdtNumber (Finite (inject_Z 7)) |};
             {| in_epc := 0xE0; in_edt := EdtUndefined |} ] |} = ret f.
Proof.
  apply (create_fails_iff_rejected (mkUnitDouble 0 0)).
  repeat constructor; cbn.
  - intros [H|H]; [discriminate H|]. apply H. now exists 7.
  - tauto.
Defined.

(** C8 (as the code has it): when [create] is called without a
    transaction id, the id of the frame is [Math.floor(Math.random() *
    0xffff)]; for every outcome of [Math.random()] it lies in [0, 0xFFFE],
    so 0xFFFF is never generated. *)
Theorem randomTid_below_0xffff (rnd : UnitDouble) (args : CreateArgs)
    (f : EchonetData) :
  UnitDouble_ok rnd ->
  arg_tid args = None ->
  create rnd args = ret f ->
  tid f = randomTid rnd /\ 0 <= tid f <= 0xFFFE /\ tid f <> 0xFFFF.
Proof.
  intros Hok Hnone Hc. apply create_ret in Hc.
  destruct Hc as (_ & Ht & _). rewrite Hnone in Ht.
  pose proof (randomTid_range rnd Hok) as Hr. rewrite <- Ht in Hr.
  split; [assumption|]. split; [assumption|].
  change 0xFFFE with 65534 in Hr. change 0xFFFF with 65535. lia.
Qed.

Lemma randomTid_below_0xffff_witness :
  tid {| tid := 0xFFFE; seoj := 0x05FF01; deoj := 0x028801; esv := 0x62;
         properties := [] |} <> 0xFFFF.
Proof.
  refine (proj2 (proj2
            (randomTid_below_0xffff (mkUnitDouble (2 ^ 53 - 1) 53)
               {| arg_tid := None; arg_seoj := 0x05FF01; arg_deoj := 0x028801;
                  arg_esv := 0x62; arg_properties := [] |}
               _ _ eq_refl _))).
  - unfold UnitDouble_ok. cbn. lia.
  - vm_compute. reflexivity.
Defined.

End ConstructionClaims.

(** ** Serialization against parsing *)

Section RoundTrip.

(** The shape of what [toBuffer] returns. *)
Lemma toBuffer_shape (f : EchonetData) :
  0 <= tid f < 2 ^ 16 -> 0 <= seoj f < 2 ^ 24 -> 0 <= deoj f < 2 ^ 24 ->
  toBuffer f
  = ret (x10 :: x81 ::
         byte_of_Z (tid f / 256) :: byte_of_Z (tid f) ::
         byte_of_Z (seoj f / 256 / 256) :: byte_of_Z (seoj f / 256) ::
         byte_of_Z (seoj f) ::
         byte_of_Z (deoj f / 256 / 256) :: byte_of_Z (deoj f / 256) ::
         byte_of_Z (deoj f) ::
         byte_of_Z (esv f) ::
         byte_of_Z (Z.of_nat (length (properties f))) ::
         Buffer_concat (map propertyToBuffer (properties f)) ++ []).
Proof.
  intros Ht Hs Hd. unfold toBuffer.
  rewrite (writeUIntBE_fits (tid f) 2) by (change (256 ^ 2) with (2 ^ 16); lia).
  rewrite (writeUIntBE_fits (seoj f) 3) by (change (256 ^ 3) with (2 ^ 24); lia).
  rewrite (writeUIntBE_fits (deoj f) 3) by (change (256 ^ 3) with (2 ^ 24); lia).
  reflexivity.
Qed.

(** Serializing a frame whose fields fit the wire and parsing the result
    gives the frame back. *)
Lemma parse_toBuffer (f : EchonetData) :
  fieldsFit f ->
  Forall wireProperty (properties f) ->
  exists b, toBuffer f = ret b /\ parse b = ret f.
Proof.
  intros (Ht & Hs & Hd & He & _ & Hn) Hwire.
  rewrite toBuffer_shape by assumption.
  eexists. split; [reflexivity|].
  rewrite parse_twelve.
  change (negb (valueBE [x10; x81] =? 0x1081)) with false. cbv iota.
  change (2 ^ 8) with 256 in He.
  rewrite Z_of_byte_of_Z, Z.mod_small, Nat2Z.id by lia.
  rewrite (parseProperties_complete (properties f) _ 12 [] []);
    [|lia|assumption|reflexivity].
  cbn [bind ret app].
  change [byte_of_Z (tid f / 256); byte_of_Z (tid f)]
    with (bytesBE 2 (tid f)).
  change [byte_of_Z (seoj f / 256 / 256); byte_of_Z (seoj f / 256); byte_of_Z (seoj f)]
    with (bytesBE 3 (seoj f)).
  change [byte_of_Z (deoj f / 256 / 256); byte_of_Z (deoj f / 256); byte_of_Z (deoj f)]
    with (bytesBE 3 (deoj f)).
  rewrite !valueBE_bytesBE, Z_of_byte_of_Z, Z.mod_small; try lia;
    try (change (256 ^ Z.of_nat 2) with (2 ^ 16); lia);
    try (change (256 ^ Z.of_nat 3) with (2 ^ 24); lia).
  destruct f; reflexivity.
Qed.

(** Whatever [parse] accepts starts with the serialization of the frame it
    returns. *)
Lemma toBuffer_parse (b : Buffer) (f : EchonetData) :
  parse b = ret f ->
  fieldsFit f /\ Forall wireProperty (properties f) /\
  exists rest, toBuffer f = ret (firstn (length b - length rest) b) /\
               b = firstn (length b - length rest) b ++ rest.
Proof.
  intros H.
  destruct (Z.lt_ge_cases (Buffer_length b) 12) as [Hshort|Hlong].
  { destruct (parse_short b Hshort) as [e He]. rewrite He in H. discriminate. }
  destruct (at_least_twelve b Hlong)
    as (b0 & b1 & b2 & b3 & b4 & b5 & b6 & b7 & b8 & b9 & b10 & b11 & tl & ->).
  rewrite parse_twelve in H.
  destruct (negb (valueBE [b0; b1] =? 0x1081)) eqn:Eh; [discriminate|].
  apply negb_false_iff, Z.eqb_eq, header_bytes in Eh. destruct Eh as [-> ->].
  match type of H with
  | bind ?m _ = _ => destruct m as [e|ps] eqn:Eps; [discriminate|]
  end.
  cbn [bind ret] in H. injection H as <-.
  apply parseProperties_sound in Eps; [|lia].
  destruct Eps as (qs & rest & Hps & Hlen & Hwire & Hskip).
  cbn [app] in Hps. subst ps.
  change (Z.to_nat 12) with 12%nat in Hskip.
  cbn [skipn] in Hskip. subst tl.
  pose proof (valueBE_range [b2; b3]) as Ht.
  pose proof (valueBE_range [b4; b5; b6]) as Hs.
  pose proof (valueBE_range [b7; b8; b9]) as Hd.
  pose proof (Z_of_byte_range b10) as He.
  pose proof (Z_of_byte_range b11) as Hc.
  cbn [length] in Ht, Hs, Hd.
  change (256 ^ Z.of_nat 2) with (2 ^ 16) in Ht.
  change (256 ^ Z.of_nat 3) with (2 ^ 24) in Hs, Hd.
  assert (Hfit : fieldsFit
                   {| tid := valueBE [b2; b3]; seoj := valueBE [b4; b5; b6];
                      deoj := valueBE [b7; b8; b9]; esv := Z_of_byte b10;
                      properties := qs |}).
  { unfold fieldsFit. cbn [tid seoj deoj esv properties].
    change (2 ^ 8) with 256.
    repeat split; try lia.
    eapply Forall_impl; [|exact Hwire]. intros p (Hp & _). exact Hp. }
  split; [exact Hfit|]. split; [exact Hwire|].
  exists rest.
  rewrite toBuffer_shape by (cbn [tid seoj deoj]; lia).
  cbn [tid seoj deoj esv properties].
  pose proof (bytesBE_valueBE [b2; b3]) as Et.
  pose proof (bytesBE_valueBE [b4; b5; b6]) as Es.
  pose proof (bytesBE_valueBE [b7; b8; b9]) as Ed.
  cbn [length bytesBE app] in Et, Es, Ed.
  injection Et as -> ->. injection Es as -> -> ->. injection Ed as -> -> ->.
  rewrite byte_of_Z_of_byte.
  replace (Z.of_nat (length qs)) with (Z_of_byte b11) by lia.
  rewrite byte_of_Z_of_byte, app_nil_r.
  set (body := Buffer_concat (map propertyToBuffer qs)).
  assert (Hpre : firstn
                   (length (x10 :: x81 :: b2 :: b3 :: b4 :: b5 :: b6 :: b7 :: b8
                            :: b9 :: b10 :: b11 :: body ++ rest) - length rest)
                   (x10 :: x81 :: b2 :: b3 :: b4 :: b5 :: b6 :: b7 :: b8
                    :: b9 :: b10 :: b11 :: body ++ rest)
                 = x10 :: x81 :: b2 :: b3 :: b4 :: b5 :: b6 :: b7 :: b8
                   :: b9 :: b10 :: b11 :: body).
  { change (x10 :: x81 :: b2 :: b3 :: b4 :: b5 :: b6 :: b7 :: b8
            :: b9 :: b10 :: b11 :: body ++ rest)
      with ((x10 :: x81 :: b2 :: b3 :: b4 :: b5 :: b6 :: b7 :: b8
             :: b9 :: b10 :: b11 :: body) ++ rest).
    apply firstn_exact. rewrite length_app. lia. }
  rewrite Hpre. split; reflexivity.
Qed.

End RoundTrip.

(** ** Claims about serialization and parsing *)

Section CodecClaims.

Lemma Forall2_right {A B : Type} (R : A -> B -> Prop) (P : B -> Prop)
    (l : list A) (l' : list B) :
  (forall a b, R a b -> P b) -> Forall2 R l l' -> Forall P l'.
Proof.
  intros HRP H. induction H; constructor; eauto.
Qed.

Lemma create_valueFits (rnd : UnitDouble) (args : CreateArgs) (f : EchonetData) :
  create rnd args = ret f ->
  Forall (fun p => valueFits p /\ lengthIsMinimal p) (properties f).
Proof.
  intros H. apply create_ret in H. destruct H as (H & _).
  eapply Forall2_right; [|exact H]. cbv beta.
  intros i p Hip. apply createProperty_minimal in Hip.
  destruct Hip as (Hv & Hmin). split; [|assumption].
  destruct Hmin as (_ & Hlt & _). split; assumption.
Qed.

(** C1 (amended): for every frame that [create] returns whose fields fit
    their widths, whose property codes are bytes, which has at most 255
    properties and whose property values are all below 256^255 (so that
    every computed length fits the length byte), parsing the bytes that
    [toBuffer] returns gives the frame back. *)
Theorem create_round_trip (rnd : UnitDouble) (args : CreateArgs)
    (f : EchonetData) :
  create rnd args = ret f ->
  fieldsFit f ->
  Forall (fun p => edt p < 256 ^ 255) (properties f) ->
  exists b, toBuffer f = ret b /\ parse b = ret f.
Proof.
  intros Hc Hfit Hsmall. apply parse_toBuffer; [assumption|].
  apply create_valueFits in Hc.
  destruct Hfit as (_ & _ & _ & _ & Hcodes & _).
  rewrite Forall_forall in *. intros p Hp.
  destruct (Hc p Hp) as (Hv & H1 & _ & Hmin).
  specialize (Hcodes p Hp). specialize (Hsmall p Hp).
  change (2 ^ 8) with 256 in Hcodes.
  specialize (Hmin 255 ltac:(lia) Hsmall).
  repeat split; try lia; apply Hv.
Qed.

Lemma create_round_trip_witness :
  exists b,
    toBuffer {| tid := 32767; seoj := 0x05FF01; deoj := 0x028801; esv := 0x62;
                properties := [ {| epc := 0xE7; pdc := 2; edt := 0x1234 |};
                                {| epc := 0x80; pdc := 1; edt := 0 |} ] |} = ret b /\
    parse b
    = ret {| tid := 32767; seoj := 0x05FF01; deoj := 0x028801; esv := 0x62;
             properties := [ {| epc := 0xE7; pdc := 2; edt := 0x1234 |};
                             {| epc := 0x80; pdc := 1; edt := 0 |} ] |}.
Proof.
  apply (create_round_trip (mkUnitDouble (2 ^ 52) 53)
           {| arg_tid := None; arg_seoj := 0x05FF01; arg_deoj := 0x028801;
              arg_esv := 0x62;
              arg_properties :=
                [ {| in_epc := 0xE7; in_edt := EdtBigInt 0x1234 |};
                  {| in_epc := 0x80; in_edt := EdtUndefined |} ] |}).
  - vm_compute. reflexivity.
  - unfold fieldsFit. cbn [tid seoj deoj esv properties length].
    repeat split; try lia; repeat constructor; cbn; lia.
  - repeat constructor; cbn; lia.
Defined.

(** C1 as stated fails: the value [256 ^ 255] gets length 256, the length
    byte on the wire is 0, and parsing returns a property of length 0 and
    value 0. *)
Lemma round_trip_loses_256_byte_value :
  create (mkUnitDouble 0 0) longValueArgs = ret longValueFrame /\
  fieldsFit longValueFrame /\
  exists b, toBuffer longValueFrame = ret b /\
            parse b = ret longValueReadBack /\
            longValueReadBack <> longValueFrame.
Proof.
  split; [vm_compute; reflexivity|]. split.
  - unfold fieldsFit, longValueFrame. cbn [tid seoj deoj esv properties epc].
    repeat split; try lia; repeat constructor; cbn; lia.
  - eexists. split; [vm_compute; reflexivity|].
    split; [vm_compute; reflexivity|]. discriminate.
Qed.

(** C2 (amended): every buffer that [parse] accepts is the serialization
    of the returned frame followed by the bytes, if any, that [parse] did
    not read; serialization reproduces the buffer exactly when no byte
    follows the last property. *)
Theorem toBuffer_parse_prefix (b : Buffer) (f : EchonetData) :
  parse b = ret f ->
  exists pre rest,
    toBuffer f = ret pre /\ b = pre ++ rest /\
    (toBuffer f = ret b <-> rest = []).
Proof.
  intros H. apply toBuffer_parse in H.
  destruct H as (_ & _ & rest & Hpre & Hb).
  set (pre := firstn (length b - length rest) b) in *.
  exists pre, rest. split; [assumption|]. split; [assumption|].
  rewrite Hpre. split.
  - intros [= E]. rewrite <- (app_nil_r pre) in E at 1.
    rewrite Hb in E at 1. symmetry. now apply app_inv_head in E.
  - intros ->. rewrite app_nil_r in Hb. now rewrite <- Hb.
Qed.

Lemma toBuffer_parse_prefix_witness :
  exists pre rest,
    toBuffer exampleFrame = ret pre /\ trailingBytes = pre ++ rest /\
    (toBuffer exampleFrame = ret trailingBytes <-> rest = []).
Proof.
  apply (toBuffer_parse_prefix trailingBytes exampleFrame).
  vm_compute. reflexivity.
Defined.

(** C2 as stated fails: the worked example followed by one more byte is
    accepted, and the frame serializes to the fourteen bytes only. *)
Lemma trailing_byte_not_reproduced :
  parse trailingBytes = ret exampleFrame /\
  toBuffer exampleFrame = ret exampleBytes /\
  toBuffer exampleFrame <> ret trailingBytes.
Proof.
  split; [vm_compute; reflexivity|].
  split; [vm_compute; reflexivity|].
  vm_compute. discriminate.
Qed.

(** C10: every frame that [create] or [parse] returns has, for each
    property, [0 <= value < 256 ^ length].  The other operations are
    functions of a frame that return no frame and leave theirs as it is. *)
Theorem obtainable_value_fits (f : EchonetData) :
  obtainable f -> Forall valueFits (properties f).
Proof.
  intros [rnd args g Hc|frame g Hp].
  - apply create_valueFits in Hc.
    eapply Forall_impl; [|exact Hc]. intros p [Hv _]. exact Hv.
  - apply toBuffer_parse in Hp. destruct Hp as (_ & Hwire & _).
    eapply Forall_impl; [|exact Hwire]. intros p (_ & _ & Hv). exact Hv.
Qed.

Lemma obtainable_value_fits_witness :
  Forall valueFits (properties exampleFrame) /\
  Forall valueFits
    [ {| epc := 0xE7; pdc := 2; edt := 0x1234 |} ].
Proof.
  split.
  - apply obtainable_value_fits.
    apply (obtained_by_parse exampleBytes). vm_compute. reflexivity.
  - apply (obtainable_value_fits
             {| tid := 7; seoj := 0x05FF01; deoj := 0x028801; esv := 0x62;
                properties := [ {| epc := 0xE7; pdc := 2; edt := 0x1234 |} ] |}).
    apply (obtained_by_create (mkUnitDouble 0 0)
             {| arg_tid := Some 7; arg_seoj := 0x05FF01; arg_deoj := 0x028801;
                arg_esv := 0x62;
                arg_properties :=
                  [ {| in_epc := 0xE7; in_edt := EdtBigInt 0x1234 |} ] |}).
    vm_compute. reflexivity.
Defined.

End CodecClaims.

(** ** A value wider than its length *)

Section OversizedValue.

Lemma toBuffer_contains (f : EchonetData) (p : EchonetProperty) (b : Buffer) :
  In p (properties f) -> toBuffer f = ret b ->
  exists before after, b = before ++ propertyToBuffer p ++ after.
Proof.
  intros Hin Hb. unfold toBuffer in Hb.
  destruct (Buffer_writeUIntBE (tid f) 2) as [e|tb]; [discriminate|].
  destruct (Buffer_writeUIntBE (seoj f) 3) as [e|sb]; [discriminate|].
  destruct (Buffer_writeUIntBE (deoj f) 3) as [e|db]; [discriminate|].
  cbn [bind ret] in Hb. injection Hb as <-.
  apply in_split in Hin. destruct Hin as (l1 & l2 & ->).
  unfold Buffer_concat. cbn [concat].
  rewrite map_app, concat_app. cbn [map concat].
  exists (Buffer_from_array [0x10; 0x81] ++ tb ++ sb ++ db
          ++ Buffer_from_array [esv f]
          ++ Buffer_from_array [Z.of_nat (length (l1 ++ p :: l2))]
          ++ concat (map propertyToBuffer l1)),
         (concat (map propertyToBuffer l2)).
  rewrite app_nil_r, <- !app_assoc. reflexivity.
Qed.

(** C3 (amended): when a property's value needs more than [length] bytes,
    [toBuffer] still emits exactly [length] bytes for it; they are decoded
    from the first [2 * length] hexadecimal digits of the value, so the
    low-order digits beyond them are dropped: the emitted bytes are the
    big-endian bytes of [value / 16 ^ (h - 2 * length)], [h] being the
    number of hexadecimal digits of the value. *)
Theorem toBuffer_oversized_value (f : EchonetData) (p : EchonetProperty)
    (b : Buffer) :
  In p (properties f) ->
  0 <= pdc p ->
  256 ^ pdc p <= edt p ->
  toBuffer f = ret b ->
  isHexDigitCount (edt p) (hexLength (edt p)) /\
  2 * pdc p < hexLength (edt p) /\
  length (edtBuffer p) = Z.to_nat (pdc p) /\
  edtBuffer p
  = Buffer_from_hex (firstn (Z.to_nat (2 * pdc p)) (BigInt_toString16 (edt p))) /\
  edtBuffer p
  = bytesBE (Z.to_nat (pdc p)) (edt p / 16 ^ (hexLength (edt p) - 2 * pdc p)) /\
  exists before after,
    b = before
        ++ (byte_of_Z (epc p) :: byte_of_Z (pdc p) :: edtBuffer p)
        ++ after.
Proof.
  intros Hin Hp Hbig Hb.
  assert (Hv : 0 <= edt p).
  { assert (0 < 256 ^ pdc p) by (apply Z.pow_pos_nonneg; lia). lia. }
  pose proof (hexLength_is_digit_count (edt p) Hv) as Hcount.
  assert (Hlong : 2 * pdc p < hexLength (edt p)).
  { destruct Hcount as (_ & Hlt & _).
    change 256 with (16 ^ 2) in Hbig. rewrite <- Z.pow_mul_r in Hbig by lia.
    assert (Hpow : 16 ^ (2 * pdc p) < 16 ^ hexLength (edt p)) by lia.
    apply Z.pow_lt_mono_r_iff in Hpow; [lia|lia|].
    unfold hexLength. lia. }
  assert (Hbytes : edtBuffer p
                   = bytesBE (Z.to_nat (pdc p))
                       (edt p / 16 ^ (hexLength (edt p) - 2 * pdc p))).
  { destruct (Z.eq_dec (pdc p) 0) as [E|E].
    - rewrite edtBuffer_empty by lia. rewrite E. reflexivity.
    - rewrite edtBuffer_digits by lia. now rewrite Z.max_r by lia. }
  split; [assumption|]. split; [assumption|].
  split; [rewrite Hbytes; apply bytesBE_length|].
  split; [|split; [assumption|]].
  - rewrite Hbytes. unfold hexLength in *.
    destruct (BigInt_toString16_spec (edt p) Hv) as (k & Heq & _).
    rewrite Heq in *. rewrite hexFixed_length in *.
    set (P := Z.to_nat (pdc p)).
    replace (Z.to_nat (2 * pdc p)) with (2 * P)%nat by (unfold P; lia).
    replace k with (2 * P + (k - 2 * P))%nat at 2 by (unfold P; lia).
    rewrite hexFixed_split by assumption.
    rewrite firstn_exact by apply hexFixed_length.
    rewrite <- (app_nil_r (hexFixed (2 * P) _)).
    rewrite Buffer_from_hex_hexFixed. cbn [Buffer_from_hex].
    rewrite app_nil_r. do 3 f_equal. unfold P. lia.
  - destruct (toBuffer_contains f p b Hin Hb) as (before & after & ->).
    exists before, after. do 2 f_equal.
    unfold propertyToBuffer, Buffer_concat, Buffer_from_array.
    cbn [map concat app]. now rewrite app_nil_r.
Qed.

Lemma toBuffer_oversized_value_witness :
  edtBuffer oversizedProperty
  = bytesBE 1 (0x1234 / 16 ^ (hexLength 0x1234 - 2 * 1)).
Proof.
  refine (proj1 (proj2 (proj2 (proj2 (proj2
            (toBuffer_oversized_value oversizedFrame oversizedProperty
               [x10; x81; x00; x01; x05; xff; x01; x02; x88; x01; x62; x01;
                x80; x01; x12] _ _ _ _)))))).
  - left. reflexivity.
  - cbn. lia.
  - cbn. lia.
  - vm_compute. reflexivity.
Defined.

(** C3 as stated fails: for the value 0x1234 with length 1 the emitted
    byte is 0x12, the high-order byte, where the low-order byte of the
    value is 0x34. *)
Lemma oversized_value_keeps_high_byte :
  In oversizedProperty (properties oversizedFrame) /\
  256 ^ pdc oversizedProperty <= edt oversizedProperty /\
  toBuffer oversizedFrame
  = ret [x10; x81; x00; x01; x05; xff; x01; x02; x88; x01; x62; x01;
         x80; x01; x12] /\
  edtBuffer oversizedProperty = [x12] /\
  bytesBE (Z.to_nat (pdc oversizedProperty))
    (edt oversizedProperty mod 256 ^ pdc oversizedProperty) = [x34] /\
  edtBuffer oversizedProperty
  <> bytesBE (Z.to_nat (pdc oversizedProperty))
       (edt oversizedProperty mod 256 ^ pdc oversizedProperty).
Proof.
  split; [left; reflexivity|].
  split; [cbn; lia|].
  split; [vm_compute; reflexivity|].
  split; [vm_compute; reflexivity|].
  split; [vm_compute; reflexivity|].
  vm_compute. discriminate.
Qed.

End OversizedValue.


(** * Further properties of the class *)

(** ** The property loop, case by case *)

Section LoopCases.

(** One turn of the loop either misses the code or length byte, or finds the
    value cut short, or pushes one property and goes on after it. *)
Lemma parseProperties_cases (frame : Buffer) (n : nat) (offset : Z)
    (acc : list EchonetProperty) :
  0 <= offset ->
  (Buffer_length frame < offset + 2 /\
   parseProperties frame (S n) offset acc = throw Error_EpcOrPdcMissing) \/
  (exists e l rest,
     skipn (Z.to_nat offset) frame = e :: l :: rest /\
     Z.of_nat (length rest) < Z_of_byte l /\
     parseProperties frame (S n) offset acc = throw Error_EdtIncomplete) \/
  (exists e l v rest,
     skipn (Z.to_nat offset) frame = e :: l :: v ++ rest /\
     Z.of_nat (length v) = Z_of_byte l /\
     skipn (Z.to_nat (offset + 1 + 1 + Z_of_byte l)) frame = rest /\
     parseProperties frame (S n) offset acc
     = parseProperties frame n (offset + 1 + 1 + Z_of_byte l)
         (acc ++ [ {| epc := Z_of_byte e; pdc := Z_of_byte l; edt := valueBE v |} ])).
Proof.
  intros Ho.
  destruct (Z.lt_ge_cases (Buffer_length frame) (offset + 2)) as [Hshort|Hlong].
  { left. split; [assumption|]. now apply parseProperties_short_head. }
  right.
  destruct (skipn_decompose frame offset 2 Ho ltac:(lia) Hlong)
    as (hd & rest1 & Hs & Hhd).
  destruct hd as [|e [|l [|x hd]]]; cbn [length] in Hhd; try lia.
  cbn [app] in Hs.
  destruct (Z.lt_ge_cases (Z.of_nat (length rest1)) (Z_of_byte l)) as [Hcut|Hfull].
  { left. exists e, l, rest1. repeat split; try assumption.
    now apply (parseProperties_short_value frame n offset acc e l rest1). }
  right.
  pose proof (Z_of_byte_range l) as Hl.
  set (L := Z.to_nat (Z_of_byte l)) in *.
  assert (Hv : Z.of_nat (length (firstn L rest1)) = Z_of_byte l).
  { rewrite length_firstn. unfold L. lia. }
  rewrite <- (firstn_skipn L rest1) in Hs.
  exists e, l, (firstn L rest1), (skipn L rest1).
  split; [exact Hs|]. split; [exact Hv|]. split.
  - replace (offset + 1 + 1 + Z_of_byte l) with (offset + (2 + Z_of_byte l)) by lia.
    rewrite skipn_Z_add, Hs by lia.
    replace (Z.to_nat (2 + Z_of_byte l)) with (S (S L)) by (unfold L; lia).
    cbn [skipn]. apply skipn_exact. lia.
  - now apply parseProperties_step with (rest := skipn L rest1).
Qed.

(** The loop throws nothing but its own two errors. *)
Lemma parseProperties_throw_kind (n : nat) :
  forall (frame : Buffer) (offset : Z) (acc : list EchonetProperty) (e : Error),
    0 <= offset ->
    parseProperties frame n offset acc = throw e ->
    e = Error_EpcOrPdcMissing \/ e = Error_EdtIncomplete.
Proof.
  induction n as [|n IH]; intros frame offset acc e Ho H; [discriminate|].
  destruct (parseProperties_cases frame n offset acc Ho)
    as [(_ & Hc)|[(x & l & rest & _ & _ & Hc)|(x & l & v & rest & _ & _ & _ & Hc)]];
    rewrite Hc in H.
  - injection H as <-. now left.
  - injection H as <-. now right.
  - apply IH in H; [assumption|]. pose proof (Z_of_byte_range l). lia.
Qed.

Lemma edtBuffer_length (p : EchonetProperty) :
  length (edtBuffer p) = Z.to_nat (pdc p).
Proof.
  unfold edtBuffer. destruct (0 <? pdc p) eqn:E.
  - unfold Buffer_copy, Buffer_alloc.
    rewrite length_app, length_firstn, length_skipn, repeat_length. lia.
  - apply Z.ltb_ge in E. unfold Buffer_alloc. cbn. lia.
Qed.

Lemma propertyToBuffer_cons (p : EchonetProperty) :
  propertyToBuffer p = byte_of_Z (epc p) :: byte_of_Z (pdc p) :: edtBuffer p.
Proof.
  unfold propertyToBuffer, Buffer_concat, Buffer_from_array.
  cbn [map concat app]. now rewrite app_nil_r.
Qed.

End LoopCases.

(** ** Parsing what was serialized, in general *)

Section ParseSerialized.

(** [toBuffer] succeeds as soon as the three range-checked fields fit; what
    follows the serialization is not read by [parse], and [parse] reads as
    many properties as the count byte says, the count modulo 256. *)
Lemma parse_serialized (f : EchonetData) :
  headerFits f -> 0 <= esv f < 256 ->
  Forall wireProperty (properties f) ->
  exists pre,
    toBuffer f = ret pre /\
    forall rest,
      parse (pre ++ rest)
      = ret (withProperties f
               (firstn (Z.to_nat (Z.of_nat (length (properties f)) mod 256))
                  (properties f))).
Proof.
  intros (Ht & Hs & Hd) He Hwire.
  rewrite toBuffer_shape by assumption.
  eexists. split; [reflexivity|]. intros rest.
  cbn [app]. rewrite parse_twelve.
  change (negb (valueBE [x10; x81] =? 0x1081)) with false. cbv iota.
  rewrite Z_of_byte_of_Z.
  set (ps := properties f) in *.
  set (m := Z.to_nat (Z.of_nat (length ps) mod 256)).
  assert (Hm : (m <= length ps)%nat).
  { unfold m. pose proof (Z.mod_le (Z.of_nat (length ps)) 256 ltac:(lia) ltac:(lia)).
    lia. }
  assert (Hbody : (Buffer_concat (map propertyToBuffer ps) ++ []) ++ rest
                  = Buffer_concat (map propertyToBuffer (firstn m ps))
                    ++ (Buffer_concat (map propertyToBuffer (skipn m ps)) ++ rest)).
  { rewrite app_nil_r. rewrite <- (firstn_skipn m ps) at 1.
    unfold Buffer_concat. now rewrite map_app, concat_app, app_assoc. }
  rewrite Hbody.
  assert (Hlen : length (firstn m ps) = m) by (rewrite length_firstn; lia).
  assert (Hwf : Forall wireProperty (firstn m ps)).
  { pose proof Hwire as Hall. rewrite <- (firstn_skipn m ps) in Hall.
    apply Forall_app in Hall. exact (proj1 Hall). }
  match goal with
  | |- context [parseProperties ?fr _ _ _] =>
      pose proof (parseProperties_complete (firstn m ps) fr 12 []
                    (Buffer_concat (map propertyToBuffer (skipn m ps)) ++ rest)
                    ltac:(lia) Hwf eq_refl) as Hloop
  end.
  rewrite Hlen in Hloop. rewrite Hloop.
  cbn [bind ret app].
  change [byte_of_Z (tid f / 256); byte_of_Z (tid f)]
    with (bytesBE 2 (tid f)).
  change [byte_of_Z (seoj f / 256 / 256); byte_of_Z (seoj f / 256); byte_of_Z (seoj f)]
    with (bytesBE 3 (seoj f)).
  change [byte_of_Z (deoj f / 256 / 256); byte_of_Z (deoj f / 256); byte_of_Z (deoj f)]
    with (bytesBE 3 (deoj f)).
  rewrite !valueBE_bytesBE, Z_of_byte_of_Z, Z.mod_small; try lia;
    try (change (256 ^ Z.of_nat 2) with (2 ^ 16); lia);
    try (change (256 ^ Z.of_nat 3) with (2 ^ 24); lia).
  reflexivity.
Qed.

Lemma fieldsFit_headerFits (f : EchonetData) :
  fieldsFit f ->
  headerFits f /\ 0 <= esv f < 256 /\
  firstn (Z.to_nat (Z.of_nat (length (properties f)) mod 256)) (properties f)
  = properties f.
Proof.
  intros (Ht & Hs & Hd & He & _ & Hn). change (2 ^ 8) with 256 in He.
  repeat split; try lia.
  rewrite Z.mod_small, Nat2Z.id by lia. apply firstn_all.
Qed.

(** The loop fails on every proper beginning of a run of encoded
    properties. *)
Lemma parseProperties_truncated (qs : list EchonetProperty) :
  forall (frame : Buffer) (offset : Z) (acc : list EchonetProperty) (j : nat),
    0 <= offset ->
    Forall (fun p => 0 <= pdc p < 256) qs ->
    skipn (Z.to_nat offset) frame
    = firstn j (Buffer_concat (map propertyToBuffer qs)) ->
    (j < length (Buffer_concat (map propertyToBuffer qs)))%nat ->
    exists e, parseProperties frame (length qs) offset acc = throw e.
Proof.
  induction qs as [|p qs IH]; intros frame offset acc j Ho Hp Hs Hj.
  - cbn in Hj. lia.
  - inversion Hp as [|? ? Hpdc Hp']; subst.
    cbn [length].
    destruct (parseProperties_cases frame (length qs) offset acc Ho)
      as [(_ & Hc)|[(x & l & rest & _ & _ & Hc)
                   |(x & l & v & rest & Hsk & Hv & Hnext & Hc)]].
    + eexists. exact Hc.
    + eexists. exact Hc.
    + rewrite Hc. cbn [map Buffer_concat concat] in Hs, Hj.
      rewrite propertyToBuffer_cons in Hs, Hj. cbn [app] in Hs, Hj.
      rewrite Hs in Hsk.
      destruct j as [|[|j]]; cbn [firstn] in Hsk; try discriminate.
      injection Hsk as <- <- Hrest.
      rewrite Z_of_byte_of_Z, Z.mod_small in Hv by lia.
      pose proof (edtBuffer_length p) as Hel.
      assert (Hjv : (length (edtBuffer p) <= j)%nat).
      { assert (Hl : length (firstn j (edtBuffer p ++ concat (map propertyToBuffer qs)))
                     = length (v ++ rest)) by now rewrite Hrest.
        rewrite length_firstn, !length_app in Hl. lia. }
      rewrite firstn_app, (firstn_all2 (edtBuffer p) Hjv) in Hrest.
      assert (Hvv : length (edtBuffer p) = length v) by lia.
      assert (Hrest' : rest = firstn (j - length (edtBuffer p))
                                (concat (map propertyToBuffer qs))).
      { apply (f_equal (skipn (length v))) in Hrest.
        rewrite (skipn_exact v rest (length v) eq_refl) in Hrest.
        rewrite (skipn_exact (edtBuffer p) _ (length v) Hvv) in Hrest.
        now symmetry. }
      apply (IH frame _ _ (j - length (edtBuffer p))%nat).
      * pose proof (Z_of_byte_range (byte_of_Z (pdc p))). lia.
      * assumption.
      * rewrite Hnext. exact Hrest'.
      * cbn [length] in Hj. rewrite length_app in Hj.
        unfold Buffer_concat. lia.
Qed.

End ParseSerialized.

(** ** How [parse] fails *)

Section ParseFailures.

Lemma header_value (b0 b1 : byte) :
  valueBE [b0; b1] = 0x1081 <-> [b0; b1] = [x10; x81].
Proof.
  split.
  - intros H. apply header_bytes in H. destruct H as [-> ->]. reflexivity.
  - intros [= -> ->]. reflexivity.
Qed.

(** A buffer of fewer than two bytes: the first read is out of range. *)
Lemma parse_below_two (frame : Buffer) :
  Buffer_length frame < 2 -> parse frame = throw ERR_OUT_OF_RANGE.
Proof.
  unfold Buffer_length. intros H.
  destruct frame as [|b0 [|b1 frame]]; [reflexivity|reflexivity|].
  cbn [length] in H. lia.
Qed.

(** A buffer of two to eleven bytes: the header is tested before the
    length. *)
Lemma parse_below_twelve (b0 b1 : byte) (rest : Buffer) :
  Buffer_length (b0 :: b1 :: rest) < 12 ->
  parse (b0 :: b1 :: rest)
  = if negb (valueBE [b0; b1] =? 0x1081) then throw Error_InvalidHeader
    else throw Error_FrameTooShort.
Proof.
  intros Hlen. unfold parse, Buffer_readUInt16BE.
  rewrite (Buffer_readUIntBE_at (b0 :: b1 :: rest) 0 2 [b0; b1] rest)
    by first [reflexivity | lia].
  cbn [bind ret].
  destruct (negb (valueBE [b0; b1] =? 0x1081)); [reflexivity|].
  guard_true (Buffer_length (b0 :: b1 :: rest) <? 12). reflexivity.
Qed.

(** What [parse] returns on twelve bytes or more, as far as failures go. *)
Lemma parse_from_twelve (frame : Buffer) :
  12 <= Buffer_length frame ->
  exists b0 b1 rest,
    frame = b0 :: b1 :: rest /\
    ((valueBE [b0; b1] <> 0x1081 /\ parse frame = throw Error_InvalidHeader) \/
     (valueBE [b0; b1] = 0x1081 /\
      ((exists e, parse frame = throw e /\
                  (e = Error_EpcOrPdcMissing \/ e = Error_EdtIncomplete)) \/
       exists f, parse frame = ret f))).
Proof.
  intros Hlen.
  destruct (at_least_twelve frame Hlen)
    as (b0 & b1 & b2 & b3 & b4 & b5 & b6 & b7 & b8 & b9 & b10 & b11 & tl & ->).
  exists b0, b1, (b2 :: b3 :: b4 :: b5 :: b6 :: b7 :: b8 :: b9 :: b10 :: b11 :: tl).
  split; [reflexivity|]. rewrite parse_twelve.
  destruct (valueBE [b0; b1] =? 0x1081) eqn:Eh; cbn [negb].
  - apply Z.eqb_eq in Eh. right. split; [assumption|].
    match goal with
    | |- context [bind ?m _] => destruct m as [e|ps] eqn:Eps
    end; cbn [bind ret].
    + left. exists e. split; [reflexivity|].
      now apply parseProperties_throw_kind in Eps.
    + right. now eexists.
  - apply Z.eqb_neq in Eh. left. now split.
Qed.

Lemma parse_throw_kind (frame : Buffer) (e : Error) :
  parse frame = throw e -> isFormatError e.
Proof.
  unfold isFormatError. intros H.
  destruct (Z.lt_ge_cases (Buffer_length frame) 12) as [Hshort|Hlong].
  - destruct frame as [|b0 [|b1 rest]].
    + rewrite parse_below_two in H by (cbn; lia). injection H as <-. auto.
    + rewrite parse_below_two in H by (cbn; lia). injection H as <-. auto.
    + rewrite parse_below_twelve in H by assumption.
      destruct (negb (valueBE [b0; b1] =? 0x1081)); injection H as <-; auto.
  - destruct (parse_from_twelve frame Hlong)
      as (b0 & b1 & rest & -> & [(_ & Hp)|(_ & [(e' & Hp & Hk)|(f & Hp)])]);
      rewrite Hp in H; try discriminate; injection H as <-; tauto.
Qed.

(** X1: the failures of [parse].  A buffer of fewer than two bytes, and no
    other, fails with the out-of-range error of the first read; a buffer of
    at least two bytes fails with the header error exactly when its first
    two bytes are not 10 81, whatever its length; with a good header it
    fails as too short exactly when it has fewer than twelve bytes; and
    every failure of [parse] is one of these three or one of the two errors
    of the property loop. *)
Theorem parse_failures (frame : Buffer) :
  (parse frame = throw ERR_OUT_OF_RANGE <-> Buffer_length frame < 2) /\
  (parse frame = throw Error_InvalidHeader
   <-> 2 <= Buffer_length frame /\ firstn 2 frame <> [x10; x81]) /\
  (parse frame = throw Error_FrameTooShort
   <-> firstn 2 frame = [x10; x81] /\ Buffer_length frame < 12) /\
  (forall e, parse frame = throw e -> isFormatError e).
Proof.
  split; [|split; [|split; [|intros e; apply parse_throw_kind]]].
  - split; [|apply parse_below_two].
    intros H. destruct (Z.lt_ge_cases (Buffer_length frame) 2) as [|Hlen]; [assumption|].
    exfalso. destruct (Z.lt_ge_cases (Buffer_length frame) 12) as [Hshort|Hlong].
    + destruct frame as [|b0 [|b1 rest]]; try (cbn in Hlen; lia).
      rewrite parse_below_twelve in H by assumption.
      destruct (negb (valueBE [b0; b1] =? 0x1081)); discriminate.
    + destruct (parse_from_twelve frame Hlong)
        as (b0 & b1 & rest & -> & [(_ & Hp)|(_ & [(e' & Hp & Hk)|(f & Hp)])]);
        rewrite Hp in H; try discriminate.
      injection H as ->. destruct Hk; discriminate.
  - destruct (Z.lt_ge_cases (Buffer_length frame) 2) as [Hlt|Hlen].
    { rewrite parse_below_two by assumption. split; [discriminate|lia]. }
    destruct frame as [|b0 [|b1 rest]]; try (cbn in Hlen; lia).
    cbn [firstn]. rewrite <- header_value.
    destruct (Z.lt_ge_cases (Buffer_length (b0 :: b1 :: rest)) 12) as [Hshort|Hlong].
    + rewrite parse_below_twelve by assumption.
      destruct (valueBE [b0; b1] =? 0x1081) eqn:Eh; cbn [negb].
      * apply Z.eqb_eq in Eh. split; [discriminate|tauto].
      * apply Z.eqb_neq in Eh. split; auto.
    + destruct (parse_from_twelve _ Hlong)
        as (c0 & c1 & rest' & [= <- <- <-] & [(Hh & Hp)|(Hh & [(e' & Hp & Hk)|(f & Hp)])]);
        rewrite Hp.
      * split; auto.
      * split; [|tauto]. intros [= ->]. destruct Hk; discriminate.
      * split; [discriminate|tauto].
  - destruct (Z.lt_ge_cases (Buffer_length frame) 2) as [Hlt|Hlen].
    { rewrite parse_below_two by assumption. split; [discriminate|].
      intros [Hh _]. destruct frame as [|b0 [|b1 rest]]; try discriminate.
      cbn in Hlt. lia. }
    destruct frame as [|b0 [|b1 rest]]; try (cbn in Hlen; lia).
    cbn [firstn]. rewrite <- header_value.
    destruct (Z.lt_ge_cases (Buffer_length (b0 :: b1 :: rest)) 12) as [Hshort|Hlong].
    + rewrite parse_below_twelve by assumption.
      destruct (valueBE [b0; b1] =? 0x1081) eqn:Eh; cbn [negb].
      * apply Z.eqb_eq in Eh. split; auto.
      * apply Z.eqb_neq in Eh. split; [discriminate|tauto].
    + destruct (parse_from_twelve _ Hlong)
        as (c0 & c1 & rest' & [= <- <- <-] & [(Hh & Hp)|(Hh & [(e' & Hp & Hk)|(f & Hp)])]);
        rewrite Hp.
      * split; [discriminate|tauto].
      * split; [|lia]. intros [= ->]. destruct Hk; discriminate.
      * split; [discriminate|lia].
Qed.

End ParseFailures.

(** ** What [toBuffer] returns *)

Section Serialization.

Lemma writeUIntBE_ret (v n : Z) (b : Buffer) :
  Buffer_writeUIntBE v n = ret b -> 0 <= v < 256 ^ n.
Proof.
  unfold Buffer_writeUIntBE.
  destruct (v <? 0) eqn:E1; [discriminate|].
  destruct (256 ^ n <=? v) eqn:E2; [discriminate|].
  apply Z.ltb_ge in E1. apply Z.leb_gt in E2. lia.
Qed.


Lemma toBuffer_ret_headerFits (f : EchonetData) (b : Buffer) :
  toBuffer f = ret b -> headerFits f.
Proof.
  unfold toBuffer, headerFits. intros H.
  destruct (Buffer_writeUIntBE (tid f) 2) as [e|tb] eqn:Et; [discriminate|].
  destruct (Buffer_writeUIntBE (seoj f) 3) as [e|sb] eqn:Es; [discriminate|].
  destruct (Buffer_writeUIntBE (deoj f) 3) as [e|db] eqn:Ed; [discriminate|].
  apply writeUIntBE_ret in Et, Es, Ed.
  change (256 ^ 2) with (2 ^ 16) in Et. change (256 ^ 3) with (2 ^ 24) in Es, Ed.
  auto.
Qed.

Lemma propertyData_length (ps : list EchonetProperty) :
  Z.of_nat (length (Buffer_concat (map propertyToBuffer ps)))
  = fold_right (fun p acc => 2 + Z.max 0 (pdc p) + acc) 0 ps.
Proof.
  unfold Buffer_concat.
  induction ps as [|p ps IH]; [reflexivity|].
  cbn [map concat fold_right]. rewrite length_app, Nat2Z.inj_add, IH.
  rewrite propertyToBuffer_cons. cbn [length]. rewrite edtBuffer_length. lia.
Qed.


Lemma toBuffer_ret_length (f : EchonetData) (b : Buffer) :
  toBuffer f = ret b -> Buffer_length b = frameLength f.
Proof.
  intros H. pose proof (toBuffer_ret_headerFits f b H) as (Ht & Hs & Hd).
  rewrite toBuffer_shape in H by assumption. injection H as <-.
  unfold Buffer_length, frameLength. cbn [length].
  rewrite app_nil_r, <- propertyData_length. lia.
Qed.

(** X3: whenever [toBuffer] returns, the buffer has twelve bytes for the
    fixed part and, for each property, two bytes and [max 0 pdc] value
    bytes, whatever the value is and whether or not it fits the length; in
    particular every property takes exactly [pdc] value bytes. *)
Theorem toBuffer_length (f : EchonetData) (b : Buffer) :
  toBuffer f = ret b ->
  Buffer_length b = frameLength f /\
  Forall (fun p => length (edtBuffer p) = Z.to_nat (pdc p)) (properties f).
Proof.
  intros H. split; [now apply toBuffer_ret_length|].
  apply Forall_forall. intros p _. apply edtBuffer_length.
Qed.

Lemma toBuffer_length_witness :
  Buffer_length exampleBytes = frameLength exampleFrame /\
  Forall (fun p => length (edtBuffer p) = Z.to_nat (pdc p)) (properties exampleFrame).
Proof.
  apply (toBuffer_length exampleFrame exampleBytes). vm_compute. reflexivity.
Defined.

End Serialization.

(** ** [parse] and [toBuffer] together *)

Section Composition.

Lemma withProperties_same (f : EchonetData) :
  withProperties f (properties f) = f.
Proof. destruct f; reflexivity. Qed.

(** What [parse] accepts: the facts used below, in one place. *)
Lemma parse_ret_serialized (b : Buffer) (f : EchonetData) :
  parse b = ret f ->
  fieldsFit f /\ Forall wireProperty (properties f) /\
  exists pre rest,
    toBuffer f = ret pre /\ b = pre ++ rest /\
    forall extra, parse (pre ++ extra) = ret f.
Proof.
  intros H. apply toBuffer_parse in H.
  destruct H as (Hfit & Hwire & rest & Hpre & Hb).
  split; [assumption|]. split; [assumption|].
  destruct (fieldsFit_headerFits f Hfit) as (Hh & He & Hall).
  destruct (parse_serialized f Hh He Hwire) as (pre & Hto & Hparse).
  exists pre, rest. split; [assumption|]. split.
  - rewrite Hto in Hpre. injection Hpre as ->. exact Hb.
  - intros extra. rewrite Hparse, Hall. now rewrite withProperties_same.
Qed.

(** X4: bytes after the last property are never read.  If [parse] accepts a
    buffer, it returns the same frame on that buffer followed by any bytes;
    and it returns the same frame on the serialization of that frame. *)
Theorem parse_ignores_trailing_bytes (b : Buffer) (f : EchonetData) :
  parse b = ret f ->
  (forall extra, parse (b ++ extra) = ret f) /\
  exists pre, toBuffer f = ret pre /\ parse pre = ret f.
Proof.
  intros H. apply parse_ret_serialized in H.
  destruct H as (_ & _ & pre & rest & Hto & -> & Hparse). split.
  - intros extra. rewrite <- app_assoc. apply Hparse.
  - exists pre. split; [assumption|].
    rewrite <- (app_nil_r pre). apply Hparse.
Qed.

Lemma parse_ignores_trailing_bytes_witness :
  (forall extra, parse (exampleBytes ++ extra) = ret exampleFrame) /\
  exists pre, toBuffer exampleFrame = ret pre /\ parse pre = ret exampleFrame.
Proof.
  apply (parse_ignores_trailing_bytes exampleBytes exampleFrame).
  vm_compute. reflexivity.
Defined.

(** X5: every frame that [parse] returns has a transaction id of 16 bits,
    source and destination objects of 24 bits, a service code of 8 bits, as
    many properties as byte 11 of the buffer says (so at most 255), each
    with a code and a length of 8 bits; and the buffer is at least as long
    as the frame's encoding. *)
Theorem parse_result_fits (b : Buffer) (f : EchonetData) :
  parse b = ret f ->
  fieldsFit f /\
  Forall (fun p => 0 <= epc p < 256 /\ 0 <= pdc p < 256) (properties f) /\
  Buffer_readUInt8 b 11 = ret (Z.of_nat (length (properties f))) /\
  frameLength f <= Buffer_length b.
Proof.
  intros H. apply parse_ret_serialized in H.
  destruct H as (Hfit & Hwire & pre & rest & Hto & -> & _).
  split; [assumption|]. split.
  { eapply Forall_impl; [|exact Hwire]. intros p (He & Hp & _). now split. }
  pose proof (toBuffer_ret_length f pre Hto) as Hlen.
  destruct Hfit as (Ht & Hs & Hd & _ & _ & Hn).
  rewrite toBuffer_shape in Hto by assumption. injection Hto as <-.
  split.
  - cbn [app].
    match goal with
    | |- Buffer_readUInt8 ?fr 11 = _ =>
        rewrite (Buffer_readUInt8_at fr 11
                   (byte_of_Z (Z.of_nat (length (properties f))))
                   ((Buffer_concat (map propertyToBuffer (properties f)) ++ []) ++ rest))
          by first [reflexivity | lia]
    end.
    now rewrite Z_of_byte_of_Z, Z.mod_small by lia.
  - unfold Buffer_length in *. rewrite length_app. lia.
Qed.

Lemma parse_result_fits_witness :
  fieldsFit exampleFrame /\
  Forall (fun p => 0 <= epc p < 256 /\ 0 <= pdc p < 256) (properties exampleFrame) /\
  Buffer_readUInt8 trailingBytes 11
  = ret (Z.of_nat (length (properties exampleFrame))) /\
  frameLength exampleFrame <= Buffer_length trailingBytes.
Proof.
  apply (parse_result_fits trailingBytes exampleFrame).
  vm_compute. reflexivity.
Defined.

(** X6: the property count is written modulo 256.  For a frame whose fields
    and properties fit the wire but which may hold any number of
    properties, parsing its serialization returns the frame cut down to its
    first [count mod 256] properties. *)
Theorem parse_toBuffer_count_mod_256 (f : EchonetData) :
  headerFits f -> 0 <= esv f < 256 ->
  Forall wireProperty (properties f) ->
  exists b,
    toBuffer f = ret b /\
    parse b
    = ret (withProperties f
             (firstn (Z.to_nat (Z.of_nat (length (properties f)) mod 256))
                (properties f))).
Proof.
  intros Hh He Hwire.
  destruct (parse_serialized f Hh He Hwire) as (pre & Hto & Hparse).
  exists pre. split; [assumption|].
  rewrite <- (app_nil_r pre). apply Hparse.
Qed.

(** X7: no serialization is the beginning of another.  If the serialization
    of one well-formed frame starts with the serialization of another, the
    two frames are the same (so distinct well-formed frames have distinct
    encodings). *)
Theorem toBuffer_prefix_free (f g : EchonetData) (b rest : Buffer) :
  fieldsFit f -> Forall wireProperty (properties f) ->
  fieldsFit g -> Forall wireProperty (properties g) ->
  toBuffer f = ret b ->
  toBuffer g = ret (b ++ rest) ->
  f = g /\ rest = [].
Proof.
  intros Hf Hwf Hg Hwg Hb Hbr.
  destruct (fieldsFit_headerFits f Hf) as (Hhf & Hef & Hallf).
  destruct (fieldsFit_headerFits g Hg) as (Hhg & Heg & Hallg).
  destruct (parse_serialized f Hhf Hef Hwf) as (pf & Htf & Hpf).
  destruct (parse_serialized g Hhg Heg Hwg) as (pg & Htg & Hpg).
  rewrite Htf in Hb. injection Hb as ->.
  rewrite Htg in Hbr. injection Hbr as ->.
  specialize (Hpf rest). specialize (Hpg []).
  rewrite app_nil_r in Hpg.
  rewrite Hallf, withProperties_same in Hpf.
  rewrite Hallg, withProperties_same in Hpg.
  assert (Hfg : f = g) by (rewrite Hpf in Hpg; now injection Hpg).
  split; [assumption|]. subst g.
  rewrite Htf in Htg. injection Htg as E.
  rewrite <- (app_nil_r b) in E at 1. now apply app_inv_head in E.
Qed.

Lemma parse_toBuffer_count_mod_256_witness :
  exists b,
    toBuffer manyPropertiesFrame = ret b /\
    parse b = ret (withProperties manyPropertiesFrame []).
Proof.
  apply (parse_toBuffer_count_mod_256 manyPropertiesFrame).
  - unfold headerFits. cbn. lia.
  - cbn. lia.
  - apply Forall_forall. intros p Hp. apply repeat_spec in Hp. subst p.
    unfold wireProperty, valueFits. cbn. lia.
Defined.

Lemma toBuffer_prefix_free_witness : exampleFrame = exampleFrame /\ @nil byte = [].
Proof.
  assert (Hfit : fieldsFit exampleFrame).
  { unfold fieldsFit. cbn [tid seoj deoj esv properties exampleFrame length].
    repeat split; try lia; repeat constructor; cbn; lia. }
  assert (Hwire : Forall wireProperty (properties exampleFrame)).
  { repeat constructor; cbn; lia. }
  apply (toBuffer_prefix_free exampleFrame exampleFrame exampleBytes []
           Hfit Hwire Hfit Hwire).
  - vm_compute. reflexivity.
  - vm_compute. reflexivity.
Defined.

(** X8: a cut serialization is rejected.  For a frame with at most 255
    properties whose lengths are bytes, every proper beginning of its
    serialization makes [parse] throw, wherever the cut falls. *)
Theorem parse_rejects_truncation (f : EchonetData) (b : Buffer) (k : nat) :
  toBuffer f = ret b ->
  (length (properties f) <= 255)%nat ->
  Forall (fun p => 0 <= pdc p < 256) (properties f) ->
  (k < length b)%nat ->
  exists e, parse (firstn k b) = throw e /\ isFormatError e.
Proof.
  intros Hto Hn Hpdc Hk.
  assert (Hthrows : exists e, parse (firstn k b) = throw e).
  { destruct (Nat.lt_ge_cases k 12) as [Hshort|Hlong].
    - apply parse_short. unfold Buffer_length. rewrite length_firstn. lia.
    - pose proof (toBuffer_ret_headerFits f b Hto) as (Ht & Hs & Hd).
      rewrite toBuffer_shape in Hto by assumption. injection Hto as <-.
      rewrite app_nil_r in *.
      replace k with (12 + (k - 12))%nat in * by lia.
      set (j := (k - 12)%nat) in *. cbn [Nat.add firstn]. cbn [length] in Hk.
      rewrite parse_twelve.
      change (negb (valueBE [x10; x81] =? 0x1081)) with false. cbv iota.
      rewrite Z_of_byte_of_Z, Z.mod_small, Nat2Z.id by lia.
      match goal with
      | |- context [parseProperties ?fr _ _ _] =>
          destruct (parseProperties_truncated (properties f) fr 12 [] j
                      ltac:(lia) Hpdc eq_refl ltac:(lia)) as [e He]
      end.
      rewrite He. now exists e. }
  destruct Hthrows as [e He]. exists e. split; [assumption|].
  now apply parse_throw_kind in He.
Qed.

Lemma parse_rejects_truncation_witness :
  exists e, parse (firstn 13 exampleBytes) = throw e /\ isFormatError e.
Proof.
  apply (parse_rejects_truncation exampleFrame exampleBytes 13).
  - vm_compute. reflexivity.
  - cbn. lia.
  - repeat constructor; cbn; lia.
  - cbn. lia.
Defined.

End Composition.

(** ** The accessors on frames of the public interface *)

Section AccessorsOnFrames.

Lemma obtainable_property_fits (f : EchonetData) (p : EchonetProperty) :
  obtainable f -> In p (properties f) -> valueFits p.
Proof.
  intros [rnd args g Hc|frame g Hp] Hin.
  - apply create_valueFits in Hc. rewrite Forall_forall in Hc.
    exact (proj1 (Hc p Hin)).
  - apply toBuffer_parse in Hp. destruct Hp as (_ & Hwire & _).
    rewrite Forall_forall in Hwire. exact (proj2 (proj2 (Hwire p Hin))).
Qed.

(** X9: on a frame returned by [create] or [parse], [getEdt] never rounds:
    what it returns is the integer that [getEdtAsBigInt] returns, which is
    then below 2^48; and whenever [getEdtAsBigInt] returns a value,
    [getEdt] either returns that same value or throws its cannot-convert
    error, never the not-found error. *)
Theorem getEdt_agrees_with_getEdtAsBigInt (f : EchonetData) (code : Z) :
  obtainable f ->
  (forall x, getEdt f code = ret x ->
             exists v, getEdtAsBigInt f code = ret v /\
                       x = Finite (inject_Z v) /\ 0 <= v < 2 ^ 48) /\
  (forall v, getEdtAsBigInt f code = ret v ->
             getEdt f code = ret (Finite (inject_Z v)) \/
             getEdt f code = throw Error_CannotConvertToNumber).
Proof.
  intros Hob. unfold getEdt, getEdtAsBigInt, findProperty.
  destruct (find (fun property => epc property =? code) (properties f))
    as [p|] eqn:Hfind; [|split; intros ? H; discriminate].
  apply find_some in Hfind. destruct Hfind as [Hin _].
  pose proof (obtainable_property_fits f p Hob Hin) as [Hv Hlt].
  destruct (6 <? pdc p) eqn:E.
  - split; [intros x H; discriminate|]. intros v _. now right.
  - apply Z.ltb_ge in E.
    assert (Hsmall : edt p < 2 ^ 48).
    { assert (256 ^ pdc p <= 256 ^ 6) by (apply Z.pow_le_mono_r; lia).
      change (256 ^ 6) with (2 ^ 48) in *. lia. }
    assert (Hexact : Number_of_BigInt (edt p) = Finite (inject_Z (edt p))).
    { apply Number_of_BigInt_exact.
      assert (2 ^ 48 < 2 ^ 53) by reflexivity. lia. }
    split.
    + intros x [= <-]. exists (edt p). repeat split; auto.
    + intros v [= <-]. left. now rewrite Hexact.
Qed.

Lemma getEdt_agrees_with_getEdtAsBigInt_witness :
  (forall x, getEdt exampleFrame 0xE7 = ret x ->
             exists v, getEdtAsBigInt exampleFrame 0xE7 = ret v /\
                       x = Finite (inject_Z v) /\ 0 <= v < 2 ^ 48) /\
  (forall v, getEdtAsBigInt exampleFrame 0xE7 = ret v ->
             getEdt exampleFrame 0xE7 = ret (Finite (inject_Z v)) \/
             getEdt exampleFrame 0xE7 = throw Error_CannotConvertToNumber).
Proof.
  apply (getEdt_agrees_with_getEdtAsBigInt exampleFrame 0xE7).
  apply (obtained_by_parse exampleBytes). vm_compute. reflexivity.
Defined.

Lemma find_created (code : Z) (inputs : list PropertyInput)
    (ps : list EchonetProperty) :
  Forall2 (fun i p => createProperty i = ret p) inputs ps ->
  (Forall (fun i => in_epc i <> code) inputs ->
   find (fun property => epc property =? code) ps = None) /\
  (forall before i after,
     inputs = before ++ i :: after ->
     in_epc i = code ->
     Forall (fun i' => in_epc i' <> code) before ->
     exists p, find (fun property => epc property =? code) ps = Some p /\
               createProperty i = ret p).
Proof.
  intros H. induction H as [|i0 p0 inputs ps Hip _ [IHnone IHsome]].
  - split; [reflexivity|].
    intros before i after E. destruct before; discriminate.
  - pose proof (createProperty_ret i0 p0 Hip) as (He & _).
    cbn [find]. split.
    + intros Hall. inversion Hall as [|? ? Hne Hall']; subst.
      rewrite He. apply Z.eqb_neq in Hne. rewrite Hne. now apply IHnone.
    + intros before i after E Hcode Hbefore.
      destruct before as [|j before]; cbn [app] in E; injection E as -> ->.
      * rewrite He, Hcode, Z.eqb_refl. now exists p0.
      * inversion Hbefore as [|? ? Hne Hb']; subst.
        rewrite He. apply Z.eqb_neq in Hne. rewrite Hne.
        now apply (IHsome before i after).
Qed.

(** X10: looking up what was constructed.  On a frame that [create]
    returned, [getEdtAsBigInt] throws the not-found error for a code that no
    input carries, and for a code that some input carries it returns the
    value supplied with the first such input (0 when that input left the
    value out); later inputs with the same code are never returned. *)
Theorem create_then_getEdtAsBigInt (rnd : UnitDouble) (args : CreateArgs)
    (f : EchonetData) (code : Z) :
  create rnd args = ret f ->
  (Forall (fun i => in_epc i <> code) (arg_properties args) ->
   getEdtAsBigInt f code = throw Error_PropertyNotFound) /\
  (forall before i after,
     arg_properties args = before ++ i :: after ->
     in_epc i = code ->
     Forall (fun i' => in_epc i' <> code) before ->
     exists v, getEdtAsBigInt f code = ret v /\ suppliedValue (in_edt i) v).
Proof.
  intros Hc. apply create_ret in Hc. destruct Hc as (H2 & _).
  destruct (find_created code _ _ H2) as [Hnone Hsome].
  unfold getEdtAsBigInt, findProperty. split.
  - intros Hall. now rewrite (Hnone Hall).
  - intros before i after E Hcode Hb.
    destruct (Hsome before i after E Hcode Hb) as (p & Hfind & Hip).
    rewrite Hfind. exists (edt p). split; [reflexivity|].
    now apply createProperty_ret in Hip.
Qed.

Lemma create_then_getEdtAsBigInt_witness :
  exists v,
    getEdtAsBigInt
      {| tid := 7; seoj := 0x05FF01; deoj := 0x028801; esv := 0x62;
         properties := [ {| epc := 0xE7; pdc := 2; edt := 0x1234 |};
                         {| epc := 0xE7; pdc := 1; edt := 5 |} ] |} 0xE7 = ret v /\
    suppliedValue (EdtBigInt 0x1234) v.
Proof.
  refine (proj2
            (create_then_getEdtAsBigInt (mkUnitDouble 0 0)
               {| arg_tid := Some 7; arg_seoj := 0x05FF01; arg_deoj := 0x028801;
                  arg_esv := 0x62;
                  arg_properties :=
                    [ {| in_epc := 0xE7; in_edt := EdtBigInt 0x1234 |};
                      {| in_epc := 0xE7; in_edt := EdtNumber (Finite (inject_Z 5)) |} ] |}
               _ 0xE7 eq_refl)
            [] {| in_epc := 0xE7; in_edt := EdtBigInt 0x1234 |}
            [ {| in_epc := 0xE7; in_edt := EdtNumber (Finite (inject_Z 5)) |} ]
            eq_refl eq_refl (Forall_nil _)).
Defined.


End AccessorsOnFrames.

(** ** More on construction *)

Section ConstructionFurther.

Lemma Forall2_map_eq {A B C : Type} (R : A -> B -> Prop) (g : A -> C) (h : B -> C)
    (l : list A) (l' : list B) :
  (forall a b, R a b -> h b = g a) -> Forall2 R l l' -> map h l' = map g l.
Proof.
  intros Hgh H. induction H as [|a b l l' Hab _ IH]; [reflexivity|].
  cbn [map]. now rewrite IH, (Hgh a b Hab).
Qed.

(** X12: [create] checks nothing but the values.  Whatever integers are
    given as transaction id, source and destination object, service code
    and property codes, they are stored as they are (in or out of their
    wire widths), and the frame has one property for each input, in the
    order of the inputs. *)
Theorem create_keeps_fields (rnd : UnitDouble) (args : CreateArgs)
    (f : EchonetData) :
  create rnd args = ret f ->
  (forall t, arg_tid args = Some t -> tid f = t) /\
  seoj f = arg_seoj args /\
  deoj f = arg_deoj args /\
  esv f = arg_esv args /\
  map epc (properties f) = map in_epc (arg_properties args) /\
  length (properties f) = length (arg_properties args).
Proof.
  intros H. apply create_ret in H. destruct H as (H2 & Ht & Hs & Hd & He).
  split; [intros t Et; now rewrite Et in Ht|].
  repeat (split; [assumption|]).
  split.
  - eapply Forall2_map_eq; [|exact H2]. cbv beta.
    intros i p Hip. now apply createProperty_ret in Hip.
  - symmetry. eapply Forall2_length. exact H2.
Qed.

Lemma create_keeps_fields_witness :
  let f := {| tid := -1; seoj := 2 ^ 30; deoj := -5; esv := 300;
              properties := [ {| epc := 0x1E7; pdc := 1; edt := 5 |} ] |} in
  (forall t, Some (-1) = Some t -> tid f = t) /\
  seoj f = 2 ^ 30 /\ deoj f = -5 /\ esv f = 300 /\
  map epc (properties f) = [0x1E7] /\
  length (properties f) = 1%nat.
Proof.
  exact (create_keeps_fields (mkUnitDouble 0 0)
           {| arg_tid := Some (-1); arg_seoj := 2 ^ 30; arg_deoj := -5;
              arg_esv := 300;
              arg_properties := [ {| in_epc := 0x1E7; in_edt := EdtBigInt 5 |} ] |}
           {| tid := -1; seoj := 2 ^ 30; deoj := -5; esv := 300;
              properties := [ {| epc := 0x1E7; pdc := 1; edt := 5 |} ] |}
           eq_refl).
Defined.

Lemma createProperty_rejected (i : PropertyInput) :
  rejectedEdt (in_edt i) -> createProperty i = throw (rejectionOf (in_edt i)).
Proof.
  intros Hrej. apply createProperty_throw in Hrej. destruct Hrej as [e He].
  rewrite He. f_equal. unfold createProperty in He.
  destruct (in_edt i) as [x|z|]; cbn [rejectionOf].
  - destruct (negb (Number_isInteger x) || Number_ltb_zero x) eqn:E.
    + now injection He as <-.
    + apply orb_false_iff in E. destruct E as [Ei _].
      apply negb_false_iff in Ei. unfold BigInt_of_Number in He. rewrite Ei in He.
      destruct x; discriminate.
  - destruct (z <? 0); [now injection He as <-|discriminate].
  - discriminate.
Qed.

Lemma createProperty_accepted (i : PropertyInput) :
  ~ rejectedEdt (in_edt i) -> exists p, createProperty i = ret p.
Proof.
  intros Hok. destruct (createProperty i) as [e|p] eqn:E; [|now exists p].
  exfalso. apply Hok. apply createProperty_throw. now exists e.
Qed.

Lemma mapM_first_throw {A B : Type} (f : A -> Result B)
    (before : list A) (a : A) (after : list A) (e : Error) :
  Forall (fun x => exists b, f x = ret b) before ->
  f a = throw e ->
  mapM f (before ++ a :: after) = throw e.
Proof.
  intros Hb Ha. induction Hb as [|x before [b Hx] _ IH]; cbn [app mapM].
  - now rewrite Ha.
  - rewrite Hx. cbn [bind ret]. now rewrite IH.
Qed.

(** X13: the first rejected value decides the error.  When the inputs
    before some input are all accepted and that input's value is rejected,
    [create] throws the error of that input: the [TypeError] when the value
    is a number, the [RangeError] when it is a bigint, whatever follows. *)
Theorem create_throws_first_rejection (rnd : UnitDouble) (args : CreateArgs)
    (before : list PropertyInput) (i : PropertyInput) (after : list PropertyInput) :
  arg_properties args = before ++ i :: after ->
  Forall (fun j => ~ rejectedEdt (in_edt j)) before ->
  rejectedEdt (in_edt i) ->
  create rnd args = throw (rejectionOf (in_edt i)).
Proof.
  intros E Hb Hi. unfold create. rewrite E.
  rewrite (mapM_first_throw createProperty before i after (rejectionOf (in_edt i))).
  - reflexivity.
  - eapply Forall_impl; [|exact Hb]. intros j. apply createProperty_accepted.
  - now apply createProperty_rejected.
Qed.

Lemma create_throws_first_rejection_witness :
  create (mkUnitDouble 0 0)
    {| arg_tid := None; arg_seoj := 0x05FF01; arg_deoj := 0x028801; arg_esv := 0x62;
       arg_properties :=
         [ {| in_epc := 0x80; in_edt := EdtUndefined |};
           {| in_epc := 0xE7; in_edt := EdtNumber (Finite (1 # 2)) |};
           {| in_epc := 0xE0; in_edt := EdtBigInt (-1) |} ] |}
  = throw TypeError_EdtMustBePositiveInteger.
Proof.
  apply (create_throws_first_rejection (mkUnitDouble 0 0)
           {| arg_tid := None; arg_seoj := 0x05FF01; arg_deoj := 0x028801;
              arg_esv := 0x62;
              arg_properties :=
                [ {| in_epc := 0x80; in_edt := EdtUndefined |};
                  {| in_epc := 0xE7; in_edt := EdtNumber (Finite (1 # 2)) |};
                  {| in_epc := 0xE0; in_edt := EdtBigInt (-1) |} ] |}
           [ {| in_epc := 0x80; in_edt := EdtUndefined |} ]
           {| in_epc := 0xE7; in_edt := EdtNumber (Finite (1 # 2)) |}
           [ {| in_epc := 0xE0; in_edt := EdtBigInt (-1) |} ]).
  - reflexivity.
  - repeat constructor. cbn. tauto.
  - cbn. right. intros [z Hz]. unfold Qeq in Hz. cbn in Hz. lia.
Defined.

(** X14: every id from 0 to 0xFFFE is generated: for each of them some
    double of [0, 1), returned by [Math.random()], makes
    [Math.floor(Math.random() * 0xffff)] that id. *)
Theorem randomTid_reaches (k : Z) :
  0 <= k <= 0xFFFE ->
  exists rnd, UnitDouble_ok rnd /\ randomTid rnd = k.
Proof.
  change 0xFFFE with 65534. intros Hk.
  set (m := ((2 * k + 1) * 2 ^ 52 + 65534) / 65535).
  pose proof (Z.div_mod ((2 * k + 1) * 2 ^ 52 + 65534) 65535 ltac:(lia)) as Hdm.
  pose proof (Z.mod_pos_bound ((2 * k + 1) * 2 ^ 52 + 65534) 65535 ltac:(lia)) as Hmb.
  fold m in Hdm.
  assert (H52 : 2 ^ 52 = 4503599627370496) by reflexivity.
  assert (H53 : 2 ^ 53 = 9007199254740992) by reflexivity.
  assert (Hlo : (2 * k + 1) * 2 ^ 52 <= m * 65535) by lia.
  assert (Hhi : m * 65535 <= (2 * k + 1) * 2 ^ 52 + 65534) by lia.
  assert (Hm : 0 <= m < 2 ^ 53) by lia.
  exists (mkUnitDouble m 53). split.
  { unfold UnitDouble_ok. cbn [mant expo]. lia. }
  unfold randomTid, Math_floor_mul. cbn [mant expo].
  change 0xffff with 65535.
  assert (Hn : 0 <= m * 65535) by lia.
  assert (Hround : k * 2 ^ 53 <= roundSig53 (m * 65535) < (k + 1) * 2 ^ 53).
  { destruct (Z.le_gt_cases (Z.log2 (m * 65535)) 52) as [Hs|Hs].
    - rewrite roundSig53_small by assumption. lia.
    - pose proof (roundSig53_bounds _ Hn Hs) as [Hl Hu].
      assert (Hlog : Z.log2 (m * 65535) < 69).
      { apply Z.log2_lt_pow2; [lia|].
        assert (2 ^ 69 = 65536 * 2 ^ 53) by reflexivity. lia. }
      assert (Hulp : 2 ^ (Z.log2 (m * 65535) - 53) <= 2 ^ 15)
        by (apply Z.pow_le_mono_r; lia).
      change (2 ^ 15) with 32768 in Hulp. lia. }
  symmetry. apply (Z.div_unique _ _ k (roundSig53 (m * 65535) - k * 2 ^ 53)); lia.
Qed.

Lemma randomTid_reaches_witness :
  exists rnd, UnitDouble_ok rnd /\ randomTid rnd = 0xFFFE.
Proof.
  apply (randomTid_reaches 0xFFFE). cbn. lia.
Defined.

End ConstructionFurther.

(** ** Values that [create] and [parse] never produce *)

Section NegativeValue.

Lemma Forall_firstn_skipn {A : Type} (P : A -> Prop) (n : nat) (l : list A) :
  Forall P l -> Forall P (firstn n l) /\ Forall P (skipn n l).
Proof.
  intros H. rewrite <- (firstn_skipn n l) in H. now apply Forall_app in H.
Qed.

(** Decoding zeros followed by a minus sign yields zero bytes only: the
    pair that holds the sign stops the decoding. *)
Lemma Buffer_from_hex_sign (k : nat) :
  forall ds : list ascii,
    Forall (eq x00) (Buffer_from_hex (repeat "0"%char k ++ "-"%char :: ds)) /\
    Forall (eq x00) (Buffer_from_hex (repeat "0"%char (S k) ++ "-"%char :: ds)).
Proof.
  induction k as [|k IH]; intros ds.
  - split.
    + destruct ds; cbn; constructor.
    + cbn. constructor.
  - split; [apply IH|].
    cbn [repeat app Buffer_from_hex].
    change (unhex "0"%char) with (Some 0). cbv iota beta.
    change (byte_of_Z (16 * 0 + 0)) with x00.
    constructor; [reflexivity|]. apply IH.
Qed.

Lemma bytesBE_zero (n : nat) : bytesBE n 0 = repeat x00 n.
Proof.
  induction n as [|n IH]; [reflexivity|].
  cbn [bytesBE]. rewrite Z.div_0_l, IH by lia.
  change (byte_of_Z 0) with x00. now rewrite <- repeat_cons.
Qed.

(** X15: a negative value is written as zeros.  For a property whose value
    is negative (which only a caller's own assignment can bring about),
    [toBuffer] emits as many zero bytes as the length says, the same bytes
    as for the value 0; the sign and the digits are lost without an
    error. *)
Theorem negative_value_serializes_as_zero (p : EchonetProperty) :
  edt p < 0 ->
  edtBuffer p = repeat x00 (Z.to_nat (pdc p)) /\
  propertyToBuffer p = propertyToBuffer (withEdt p 0).
Proof.
  intros Hneg.
  assert (Hzeros : edtBuffer p = repeat x00 (Z.to_nat (pdc p))).
  { rewrite <- (edtBuffer_length p). apply Forall_eq_repeat.
    unfold edtBuffer. destruct (0 <? pdc p) eqn:E.
    - unfold Buffer_copy, padStart, BigInt_toString16.
      guard_true (edt p <? 0).
      apply Forall_app. split.
      + apply Forall_firstn_skipn. apply Buffer_from_hex_sign.
      + apply Forall_firstn_skipn. unfold Buffer_alloc.
        apply Forall_forall. intros x Hx. apply repeat_spec in Hx. now subst.
    - constructor. }
  split; [assumption|].
  rewrite !propertyToBuffer_cons. cbn [withEdt epc pdc]. do 2 f_equal.
  rewrite Hzeros. symmetry.
  destruct (Z.lt_ge_cases 0 (pdc p)) as [Hp|Hp].
  - rewrite edtBuffer_fits.
    + cbn [withEdt pdc edt]. apply bytesBE_zero.
    + unfold valueFits. cbn [withEdt pdc edt]. split; [lia|].
      apply Z.pow_pos_nonneg; lia.
  - rewrite edtBuffer_empty by (cbn [withEdt pdc]; lia).
    replace (Z.to_nat (pdc p)) with 0%nat by lia. reflexivity.
Qed.

Lemma negative_value_serializes_as_zero_witness :
  edtBuffer {| epc := 0xE7; pdc := 2; edt := -0x1234 |} = repeat x00 2 /\
  propertyToBuffer {| epc := 0xE7; pdc := 2; edt := -0x1234 |}
  = propertyToBuffer {| epc := 0xE7; pdc := 2; edt := 0 |}.
Proof.
  apply (negative_value_serializes_as_zero {| epc := 0xE7; pdc := 2; edt := -0x1234 |}).
  cbn. lia.
Defined.

End NegativeValue.

(** ** The diagnostic rendering *)

Section Rendering.

Lemma toDecDigits_spec (fuel : nat) :
  forall (n : Z) (acc : list ascii),
    0 <= n < 10 ^ (Z.of_nat fuel + 1) ->
    exists k : nat,
      toDecDigits fuel n acc = decFixed k n ++ acc /\
      (1 <= k)%nat /\ n < 10 ^ Z.of_nat k /\
      (k = 1%nat \/ 10 ^ (Z.of_nat k - 1) <= n).
Proof.
  induction fuel as [|fuel IH]; intros n acc Hn.
  - exists 1%nat. cbn in *. rewrite Z.mod_small by lia.
    repeat split; auto; lia.
  - cbn [toDecDigits]. destruct (n <? 10) eqn:E.
    + apply Z.ltb_lt in E. exists 1%nat. cbn. rewrite Z.mod_small by lia.
      repeat split; auto; lia.
    + apply Z.ltb_ge in E.
      rewrite Nat2Z.inj_succ in Hn.
      replace (Z.succ (Z.of_nat fuel) + 1) with (Z.succ (Z.of_nat fuel + 1)) in Hn by lia.
      rewrite Z.pow_succ_r in Hn by lia.
      destruct (IH (n / 10) (hexChar (n mod 10) :: acc)) as (k & Heq & Hk1 & Hlt & Hge).
      { split; [apply Z.div_pos; lia|apply Z.div_lt_upper_bound; lia]. }
      exists (S k). rewrite Heq. cbn [decFixed]. rewrite <- app_assoc. cbn [app].
      split; [reflexivity|]. split; [lia|].
      rewrite Nat2Z.inj_succ, Z.pow_succ_r by lia.
      pose proof (Z.div_mod n 10 ltac:(lia)) as Hdm.
      pose proof (Z.mod_pos_bound n 10 ltac:(lia)) as Hmb.
      split; [lia|]. right.
      replace (Z.succ (Z.of_nat k) - 1) with (Z.succ (Z.of_nat k - 1)) by lia.
      rewrite Z.pow_succ_r by lia.
      destruct Hge as [->|Hge]; [cbn; lia|lia].
Qed.

(** The decimal text of a non-negative integer is its shortest digit string. *)
Lemma Number_toString10_spec (n : Z) :
  0 <= n ->
  exists k : nat,
    Number_toString10 n = decFixed k n /\
    (1 <= k)%nat /\ n < 10 ^ Z.of_nat k /\
    (k = 1%nat \/ 10 ^ (Z.of_nat k - 1) <= n).
Proof.
  intros Hn. unfold Number_toString10. guard_false (n <? 0).
  destruct (toDecDigits_spec (Z.to_nat (Z.log2 n)) n []) as (k & Heq & H).
  { split; [assumption|].
    pose proof (Z.log2_nonneg n). rewrite Z2Nat.id by lia.
    destruct (Z.eq_dec n 0) as [->|Hnz]; [cbn; lia|].
    pose proof (Z.log2_spec n ltac:(lia)) as [_ Hlt].
    eapply Z.lt_le_trans; [exact Hlt|].
    replace (Z.succ (Z.log2 n)) with (Z.log2 n + 1) by lia.
    apply Z.pow_le_mono_l. lia. }
  exists k. rewrite Heq, app_nil_r. auto.
Qed.






End Rendering.

(** ** The buffers that [parse] accepts *)

Section Accepted.

(** X17: [parse] returns the frame [f] on exactly the buffers that begin
    with the serialization of [f], for [f] well formed: fields in their
    widths, at most 255 properties, codes and lengths that are bytes and
    values that fit their lengths. *)
Theorem parse_accepts_exactly (b : Buffer) (f : EchonetData) :
  parse b = ret f
  <-> fieldsFit f /\ Forall wireProperty (properties f) /\
      exists pre rest, toBuffer f = ret pre /\ b = pre ++ rest.
Proof.
  split.
  - intros H. apply parse_ret_serialized in H.
    destruct H as (Hfit & Hwire & pre & rest & Hto & Hb & _).
    split; [assumption|]. split; [assumption|]. now exists pre, rest.
  - intros (Hfit & Hwire & pre & rest & Hto & ->).
    destruct (fieldsFit_headerFits f Hfit) as (Hh & He & Hall).
    destruct (parse_serialized f Hh He Hwire) as (pre' & Hto' & Hparse).
    rewrite Hto in Hto'. injection Hto' as <-.
    rewrite Hparse, Hall. now rewrite withProperties_same.
Qed.

End Accepted.
